(** * SHL standings scraper: parse, compare, persist

    A shallow embedding of [scraper.py]: the table parser
    ([parse_standings]), the snapshot comparator ([compare_standings]) and
    the snapshot store ([save_to_json], [load_existing_standings]), with the
    properties of the specification stated over them.

    Python values are embedded as follows.
    - [int] is [Z] (unbounded).
    - [float] is a binary64 value, [spec_float] with [prec = 53] and
      [emax = 1024]; the operations are the correctly rounded ones.
    - [str] is [string], the UTF-8 bytes of the text.
    - an exception is a value of [exn], and a computation that can raise
      returns [res].
    - what BeautifulSoup hands to the program (the tables of the page, the
      rows of a table, the cells of a row and the stripped text of a cell) is
      the input of the parser. *)

From Stdlib Require Import ZArith List String Ascii Lia Bool.
From Stdlib Require Import Floats.SpecFloat.
From stdpp Require Import gmap strings list pretty sorting.

Open Scope string_scope.
Open Scope Z_scope.

(** ** Exceptions and results *)

(** The exception classes that the program can meet. *)
Inductive exn : Type :=
  | ValueError
  | AttributeError
  | OverflowError
  | ZeroDivisionError
  | KeyError
  | IndexError
  | IOError
  | JSONDecodeError
  | UnicodeDecodeError
  | RecursionError.

#[global] Instance exn_eq_dec : EqDecision exn.
Proof. solve_decision. Defined.

(** [Ok v] is a normal return, [Raise e] an exception that leaves the
    computation. *)
Inductive res (A : Type) : Type :=
  | Ok (v : A)
  | Raise (e : exn).
Arguments Ok {A} v.
Arguments Raise {A} e.

#[global] Instance res_eq_dec {A : Type} `{EqDecision A} : EqDecision (res A).
Proof. solve_decision. Defined.

#[global] Instance res_ret : MRet res := fun _ v => Ok v.

#[global] Instance res_bind : MBind res := fun _ _ k c =>
  match c with
  | Ok v => k v
  | Raise e => Raise e
  end.

(** ** Integers and their texts *)

(** The decimal text of an [int]. *)
Definition str_of_int (n : Z) : string := pretty n.

(** The limit on the number of digits of an integer text
    ([sys.int_info.default_max_str_digits], CPython 3.11 and later). *)
Definition INT_MAX_STR_DIGITS : Z := 4300.

Definition is_digit (c : ascii) : bool :=
  let n := nat_of_ascii c in (48 <=? n)%nat && (n <=? 57)%nat.

Definition digit_value (c : ascii) : Z := Z.of_nat (nat_of_ascii c) - 48.

(** ASCII white space, as [int] drops it around a literal. *)
Definition is_space (c : ascii) : bool :=
  let n := nat_of_ascii c in
  ((9 <=? n)%nat && (n <=? 13)%nat) || (n =? 32)%nat.

Fixpoint lstrip (s : string) : string :=
  match s with
  | String c rest => if is_space c then lstrip rest else s
  | EmptyString => s
  end.

Fixpoint rstrip (s : string) : string :=
  match s with
  | String c rest =>
      match rstrip rest with
      | EmptyString => if is_space c then EmptyString else String c EmptyString
      | rest' => String c rest'
      end
  | EmptyString => s
  end.

Definition strip (s : string) : string := rstrip (lstrip s).

(** The digits of a literal after its first digit: digits, each possibly
    preceded by one underscore.  [acc] is the value read so far and [n] the
    number of digits read so far. *)
Fixpoint int_digits (acc n : Z) (s : string) : option (Z * Z) :=
  match s with
  | EmptyString => Some (acc, n)
  | String c rest =>
      if is_digit c then int_digits (10 * acc + digit_value c) (n + 1) rest
      else if Ascii.eqb c "_" then
        match rest with
        | String c' rest' =>
            if is_digit c'
            then int_digits (10 * acc + digit_value c') (n + 1) rest'
            else None
        | EmptyString => None
        end
      else None
  end.

(** A literal without sign: it starts with a digit. *)
Definition int_unsigned (s : string) : option (Z * Z) :=
  match s with
  | String c rest =>
      if is_digit c then int_digits (digit_value c) 1 rest else None
  | EmptyString => None
  end.

(** The ASCII text of a base-10 literal as an integer: white space around
    the literal, an optional sign, digits with single underscores between
    them; [ValueError] otherwise and when the literal has more than
    [INT_MAX_STR_DIGITS] digits. *)
Definition int_of_ascii (s : string) : res Z :=
  let body := strip s in
  let '(neg, digits) :=
    match body with
    | String "-" rest => (true, rest)
    | String "+" rest => (false, rest)
    | _ => (false, body)
    end in
  match int_unsigned digits with
  | Some (v, n) =>
      if INT_MAX_STR_DIGITS <? n then Raise ValueError
      else Ok (if neg : bool then - v else v)
  | None => Raise ValueError
  end.

(** The code points of the decimal digit zero of every script (Unicode
    14.0, category Nd): the ten digits of a script follow one another. *)
Definition unicode_zeros : list N :=
  [48; 1632; 1776; 1984; 2406; 2534; 2662; 2790; 2918; 3046; 3174; 3302;
   3430; 3558; 3664; 3792; 3872; 4160; 4240; 6112; 6160; 6470; 6608; 6784;
   6800; 6992; 7088; 7232; 7248; 42528; 43216; 43264; 43472; 43504; 43600;
   44016; 65296; 66720; 68912; 69734; 69872; 69942; 70096; 70384; 70736;
   70864; 71248; 71360; 71472; 71904; 72016; 72784; 73040; 73120; 92768;
   92864; 93008; 120782; 120792; 120802; 120812; 120822; 123200; 123632;
   125264; 130032]%N.

(** The white space characters beyond ASCII ([str.isspace]). *)
Definition unicode_spaces : list N :=
  [133; 160; 5760; 8192; 8193; 8194; 8195; 8196; 8197; 8198; 8199; 8200;
   8201; 8202; 8232; 8233; 8239; 8287; 12288]%N.

(** What [int] makes of a character that is not ASCII: a space for a white
    space character, the ASCII digit for a decimal digit of any script, and
    nothing otherwise. *)
Definition ascii_of_code_point (cp : N) : option ascii :=
  if bool_decide (cp ∈ unicode_spaces) then Some " "%char
  else
    match list_find (fun z => (z <= cp)%N /\ (cp < z + 10)%N) unicode_zeros with
    | Some (_, z) => Some (ascii_of_N (48 + (cp - z)))
    | None => None
    end.

(** A text, given by its UTF-8 bytes, with every character that is not
    ASCII replaced as [int] does before it reads the literal.  [pending] is
    the number of continuation bytes still expected and [cp] what has been
    read of the current code point. *)
Fixpoint to_ascii (pending : nat) (cp : N) (s : string) : option string :=
  match s with
  | EmptyString => match pending with O => Some EmptyString | S _ => None end
  | String b rest =>
      let n := N_of_ascii b in
      match pending with
      | O =>
          if (n <? 128)%N then String b <$> to_ascii 0 0 rest
          else if (192 <=? n)%N && (n <? 224)%N then to_ascii 1 (n - 192) rest
          else if (224 <=? n)%N && (n <? 240)%N then to_ascii 2 (n - 224) rest
          else if (240 <=? n)%N && (n <? 248)%N then to_ascii 3 (n - 240) rest
          else None
      | S k =>
          if (128 <=? n)%N && (n <? 192)%N then
            let cp' := (cp * 64 + (n - 128))%N in
            match k with
            | O =>
                c ← ascii_of_code_point cp';
                String c <$> to_ascii 0 0 rest
            | S _ => to_ascii k cp' rest
            end
          else None
      end
  end.

(** [int(s)] in base 10 for a [str]: the decimal digits and the white space
    of every script count as their ASCII counterparts. *)
Definition py_int (s : string) : res Z :=
  match to_ascii 0 0 s with
  | Some a => int_of_ascii a
  | None => Raise ValueError
  end.

(** The number of decimal digits of [str(n)], sign apart. *)
Definition decimal_digits (n : Z) : Z :=
  Z.of_nat (String.length (pretty (Z.abs n))).

(** [str(n)] itself raises [ValueError] above the digit limit. *)
Definition int_str_ok (n : Z) : bool := decimal_digits n <=? INT_MAX_STR_DIGITS.

(** [str(n)] and [f"{n}"] for an [int] of any size: the text, or
    [ValueError] above the digit limit.  ([str_of_int] alone is used for the
    length of a list and for a year, which stay far below the limit.) *)
Definition format_int (n : Z) : res string :=
  if int_str_ok n then Ok (str_of_int n) else Raise ValueError.

(** ** Floats *)

Definition pyfloat : Type := spec_float.

Definition prec : Z := 53.
Definition emax : Z := 1024.

#[global] Instance spec_float_eq_dec : EqDecision spec_float.
Proof. solve_decision. Defined.

(** An integer as a (not yet rounded) floating-point datum. *)
Definition float_of_Z (n : Z) : spec_float :=
  match n with
  | Z0 => S754_zero false
  | Zpos p => S754_finite false p 0
  | Zneg p => S754_finite true p 0
  end.

(** The least quotient that does not round to a finite float: half-way
    between the largest float and [2 ^ 1024]. *)
Definition FLOAT_OVERFLOW : Z := 2 ^ 1024 - 2 ^ 970.

(** [a / b] for two [int]: the correctly rounded quotient;
    [ZeroDivisionError] for [b = 0], [OverflowError] ("integer division
    result too large for a float") when the quotient rounds to no finite
    float, that is when [|a / b| >= FLOAT_OVERFLOW]. *)
Definition true_div (a b : Z) : res pyfloat :=
  if b =? 0 then Raise ZeroDivisionError
  else if FLOAT_OVERFLOW * Z.abs b <=? Z.abs a then Raise OverflowError
  else Ok (SFdiv prec emax (float_of_Z a) (float_of_Z b)).

(** [x * n] for a [float] and an [int] that a float holds exactly. *)
Definition float_mul_int (x : pyfloat) (n : Z) : pyfloat :=
  SFmul prec emax x (float_of_Z n).

(** The integer nearest to [num / den] ([den > 0]), ties to even. *)
Definition round_half_even (num den : Z) : Z :=
  let q := num / den in
  let r := num mod den in
  match 2 * r ?= den with
  | Lt => q
  | Gt => q + 1
  | Eq => if Z.even q then q else q + 1
  end.

(** [round(x, 2)] for a [float]: the exact value of [x] is rounded to two
    decimals (ties to even), and the float nearest to that decimal is
    returned.  A float with a non-negative exponent is an integer and rounds
    to itself, as do the infinities and NaN; no float makes the builtin
    raise for two decimals. *)
Definition round2 (x : pyfloat) : pyfloat :=
  match x with
  | S754_finite s m e =>
      if 0 <=? e then x
      else
        match round_half_even (Zpos m * 100) (2 ^ (- e)) with
        | Zpos h => SFdiv prec emax (S754_finite s h 0) (float_of_Z 100)
        | _ => S754_zero s
        end
  | _ => x
  end.

(** ** Team records *)

Definition TOTAL_GAMES_IN_SEASON : Z := 52.
Definition API_VERSION : string := "1.0.0".
Definition URL : string := "https://sportstatistik.nu/hockey/shl/tabell".

(** One entry of the standings: the dictionary that [parse_standings] builds
    for a row, with its fifteen keys. *)
Record TeamRecord : Type := {
  position : Z;
  team : string;
  games_played : Z;
  wins : Z;
  ties : Z;
  losses : Z;
  ot_wins : Z;
  ot_losses : Z;
  goals_for : Z;
  goals_against : Z;
  goal_diff : Z;
  points : Z;
  win_percentage : pyfloat;
  points_per_game : pyfloat;
  goals_per_game : pyfloat;
  games_remaining : Z
}.

#[global] Instance TeamRecord_eq_dec : EqDecision TeamRecord.
Proof. solve_decision. Defined.

(** ** The table parser *)

(** The page as [parse_standings] sees it through BeautifulSoup: a cell is
    the text [get_text(strip=True)] returns for a [td], a row the cells
    [find_all('td')] returns for a [tr], a table the rows [find_all('tr')]
    returns, and a page the tables [find_all('table')] returns. *)
Abbreviation Cell := string (only parsing).
Abbreviation Row := (list string) (only parsing).
Abbreviation Table := (list (list string)) (only parsing).
Abbreviation Page := (list (list (list string))) (only parsing).

(** What [parse_standings] prints on [stderr] for a row it leaves out. *)
Inductive Warning : Type :=
  | SkippedShortRow (ncells : nat)
  | SkippedBadRow (e : exn).

(** The failures of [parse_standings]: each is one [print(..., file=sys.stderr)]
    followed by [return None].  [ParseFailed] is the handler of the outer
    [try], which catches every exception the row handler lets through. *)
Inductive ParseError : Type :=
  | NoTableFound
  | InsufficientRows
  | NoValidRecords
  | ParseFailed (e : exn).

Inductive ParseResult : Type :=
  | Parsed (standings : list TeamRecord)
  | Failed (err : ParseError).

(** [cells[i]]: an index out of range raises [IndexError]. *)
Definition cell_at (cells : Row) (i : nat) : res Cell :=
  match cells !! i with
  | Some c => Ok c
  | None => Raise IndexError
  end.

Definition int_cell (cells : Row) (i : nat) : res Z :=
  c ← cell_at cells i; py_int c.

Definition float_zero : pyfloat := S754_zero false.

(** The body of the inner [try]: the dictionary literal and the four
    calculated fields, for the cells of one row. *)
Definition parse_row (position : Z) (cells : Row) : res TeamRecord :=
  name ← cell_at cells 0;
  gp ← int_cell cells 1;
  w ← int_cell cells 2;
  t ← int_cell cells 3;
  l ← int_cell cells 4;
  otw ← int_cell cells 5;
  otl ← int_cell cells 6;
  gf ← int_cell cells 7;
  ga ← int_cell cells 8;
  gd ← int_cell cells 9;
  pts ← int_cell cells 10;
  wp ← (x ← (if 0 <? gp
              then q ← true_div w gp; Ok (float_mul_int q 100)
              else Ok float_zero);
        Ok (round2 x));
  ppg ← (x ← (if 0 <? gp then true_div pts gp else Ok float_zero);
         Ok (round2 x));
  gpg ← (x ← (if 0 <? gp then true_div gf gp else Ok float_zero);
         Ok (round2 x));
  Ok {| position := position; team := name; games_played := gp; wins := w;
        ties := t; losses := l; ot_wins := otw; ot_losses := otl;
        goals_for := gf; goals_against := ga; goal_diff := gd; points := pts;
        win_percentage := wp; points_per_game := ppg; goals_per_game := gpg;
        games_remaining := TOTAL_GAMES_IN_SEASON - gp |}.

(** What one turn of the loop does with a row. *)
Inductive RowOutcome : Type :=
  | Keep (team_data : TeamRecord)
  | Skip (w : Warning)
  | Abort (e : exn).

(** The body of the [for] loop: the check on the number of cells, then the
    inner [try] with its handler for [ValueError] and [AttributeError]. *)
Definition row_step (position : Z) (cells : Row) : RowOutcome :=
  if (length cells <? 11)%nat then Skip (SkippedShortRow (length cells))
  else
    match parse_row position cells with
    | Ok team_data => Keep team_data
    | Raise ValueError => Skip (SkippedBadRow ValueError)
    | Raise AttributeError => Skip (SkippedBadRow AttributeError)
    | Raise e => Abort e
    end.

(** [for position, row in enumerate(rows, start=position)], with the list
    [standings] being appended to and the warnings printed so far. *)
Fixpoint parse_rows (position : Z) (rows : Table)
    (standings : list TeamRecord) (warnings : list Warning)
    : res (list TeamRecord) * list Warning :=
  match rows with
  | [] => (Ok standings, warnings)
  | cells :: rest =>
      match row_step position cells with
      | Keep team_data =>
          parse_rows (position + 1) rest (standings ++ [team_data])%list warnings
      | Skip w =>
          parse_rows (position + 1) rest standings (warnings ++ [w])%list
      | Abort e => (Raise e, warnings)
      end
  end.

(** [parse_standings], from the tables of the page on. *)
Definition parse_standings (page : Page) : ParseResult * list Warning :=
  match page with
  | [] => (Failed NoTableFound, [])
  | table :: _ =>
      let rows := table in
      if (length rows <? 2)%nat then (Failed InsufficientRows, [])
      else
        match parse_rows 1 (tail rows) [] [] with
        | (Ok [], warnings) => (Failed NoValidRecords, warnings)
        | (Ok standings, warnings) => (Parsed standings, warnings)
        | (Raise e, warnings) => (Failed (ParseFailed e), warnings)
        end
  end.

(** ** The snapshot comparator *)

(** The ten scraped counters that [compare_standings] looks at, with their
    keys, in the order of its list. *)
Definition raw_counters : list (string * (TeamRecord -> Z)) :=
  [("games_played", games_played); ("wins", wins); ("ties", ties);
   ("losses", losses); ("ot_wins", ot_wins); ("ot_losses", ot_losses);
   ("goals_for", goals_for); ("goals_against", goals_against);
   ("goal_diff", goal_diff); ("points", points)].

(** [{team['team']: team for team in standings}]: a later record replaces an
    earlier one of the same name. *)
Definition by_team (standings : list TeamRecord) : gmap string TeamRecord :=
  foldl (fun d t => <[team t := t]> d) ∅ standings.

(** The inner loop over the keys: one text per counter that differs.  The
    f-string formats the old value, then the new one, and raises
    [ValueError] on an [int] above the digit limit. *)
Fixpoint stat_changes_of (keys : list (string * (TeamRecord -> Z)))
    (old_team new_team : TeamRecord) : res (list string) :=
  match keys with
  | [] => Ok []
  | (key, get) :: rest =>
      if bool_decide (get old_team ≠ get new_team)
      then
        o ← format_int (get old_team);
        n ← format_int (get new_team);
        changed ← stat_changes_of rest old_team new_team;
        Ok ((key +:+ " " +:+ o +:+ "→" +:+ n) :: changed)
      else stat_changes_of rest old_team new_team
  end.

Definition stat_changes (old_team new_team : TeamRecord)
    : res (list string) :=
  stat_changes_of raw_counters old_team new_team.

(** What one turn of the loop over [new] appends to [changes]: the
    position message is formatted before the counters are looked at. *)
Definition team_changes (old_team new_team : TeamRecord)
    : res (list string) :=
  let team_name := team new_team in
  moved ←
    (if bool_decide (position old_team ≠ position new_team)
     then
       o ← format_int (position old_team);
       n ← format_int (position new_team);
       Ok [team_name +:+ ": pos " +:+ o +:+ " → " +:+ n]
     else Ok []);
  changed ← stat_changes old_team new_team;
  Ok (moved ++
      match changed with
      | [] => []
      | _ => [team_name +:+ ": " +:+ String.concat ", " changed]
      end)%list.

(** [for i, new_team in enumerate(new, start=1)]: [old_by_team[team_name]]
    raises [KeyError] for a name that is not a key. *)
Fixpoint compare_teams (old_by_team : gmap string TeamRecord)
    (new : list TeamRecord) (changes : list string) : res (list string) :=
  match new with
  | [] => Ok changes
  | new_team :: rest =>
      match old_by_team !! team new_team with
      | None => Raise KeyError
      | Some old_team =>
          reported ← team_changes old_team new_team;
          compare_teams old_by_team rest (changes ++ reported)%list
      end
  end.

Section Comparator.

(** The order in which [join] iterates over the difference of two sets of
    names.  It depends on the hashes of the names and on the order in which
    the two sets were filled, so it is left open: a function of the names
    of the sequence the difference is taken from, of the names of the
    sequence that is taken away, both in the order of the sequences, and of
    the difference itself. *)
Variable set_order : list string -> list string -> gset string -> list string.

Definition compare_standings (old new : list TeamRecord)
    : res (bool * list string) :=
  if bool_decide (length old ≠ length new)
  then Ok (true,
           ["Team count changed: " +:+ str_of_int (Z.of_nat (length old))
              +:+ " → " +:+ str_of_int (Z.of_nat (length new))])
  else
    let old_by_team := by_team old in
    let new_by_team := by_team new in
    let old_teams : gset string := dom old_by_team in
    let new_teams : gset string := dom new_by_team in
    if bool_decide (old_teams ≠ new_teams)
    then
      let added := new_teams ∖ old_teams in
      let removed := old_teams ∖ new_teams in
      Ok (true,
          ((if bool_decide (added ≠ ∅)
            then ["New teams: "
                    +:+ String.concat ", "
                          (set_order (map team new) (map team old) added)]
            else [])
           ++
           (if bool_decide (removed ≠ ∅)
            then ["Removed teams: "
                    +:+ String.concat ", "
                          (set_order (map team old) (map team new) removed)]
            else []))%list)
    else
      changes ← compare_teams old_by_team new [];
      Ok (bool_decide (0 < length changes)%nat, changes).

End Comparator.

(** ** The snapshot store *)

#[local] Set Warnings "-register-all".

(** The Python values that [json] reads and writes.  A [PDict] lists the
    items of a dictionary in insertion order, each key once. *)
Inductive pyval : Type :=
  | PNone
  | PBool (b : bool)
  | PInt (n : Z)
  | PFloat (x : pyfloat)
  | PStr (s : string)
  | PList (items : list pyval)
  | PDict (items : list (string * pyval)).

(** [d.get(key)] on the items of a dictionary. *)
Fixpoint dict_get (key : string) (items : list (string * pyval)) : pyval :=
  match items with
  | [] => PNone
  | (k, v) :: rest => if String.eqb k key then v else dict_get key rest
  end.

(** [data.get(key)]: only a dictionary has the method. *)
Definition py_get (data : pyval) (key : string) : res pyval :=
  match data with
  | PDict items => Ok (dict_get key items)
  | _ => Raise AttributeError
  end.

(** A team record as the dictionary it is in the program. *)
Definition record_dict (t : TeamRecord) : pyval :=
  PDict
    [("position", PInt (position t)); ("team", PStr (team t));
     ("games_played", PInt (games_played t)); ("wins", PInt (wins t));
     ("ties", PInt (ties t)); ("losses", PInt (losses t));
     ("ot_wins", PInt (ot_wins t)); ("ot_losses", PInt (ot_losses t));
     ("goals_for", PInt (goals_for t));
     ("goals_against", PInt (goals_against t));
     ("goal_diff", PInt (goal_diff t)); ("points", PInt (points t));
     ("win_percentage", PFloat (win_percentage t));
     ("points_per_game", PFloat (points_per_game t));
     ("goals_per_game", PFloat (goals_per_game t));
     ("games_remaining", PInt (games_remaining t))].

Definition standings_list (data : list TeamRecord) : pyval :=
  PList (map record_dict data).

(** [d[key] = value] on the items of a dictionary: the value of a key that
    is there is replaced in its place, a new key comes last. *)
Fixpoint dict_set (key : string) (value : pyval)
    (items : list (string * pyval)) : list (string * pyval) :=
  match items with
  | [] => [(key, value)]
  | (k, v) :: rest =>
      if String.eqb k key then (k, value) :: rest
      else (k, v) :: dict_set key value rest
  end.

(** ** JSON texts *)

(** A JSON text, as far as [json.dump] and [json.load] tell texts apart:
    an integer is the literal that stands in the text; a number with a
    fraction or an exponent, [NaN] and the infinities are the [float] that
    [float] makes of the literal ([repr] writes a literal that reads back as
    the same [float]); a string is the text between the quotes with the
    escapes resolved; an object lists its members in the order of the text,
    a key possibly more than once.  White space and indentation are left
    out. *)
Inductive json : Type :=
  | JNull
  | JBool (b : bool)
  | JInt (literal : string)
  | JFloat (x : pyfloat)
  | JString (s : string)
  | JArray (items : list json)
  | JObject (members : list (string * json)).

(** A loop over a list with a body that can raise: the first exception
    leaves the loop. *)
Definition res_map {A B : Type} (f : A -> res B) : list A -> res (list B) :=
  fix go (l : list A) : res (list B) :=
    match l with
    | [] => Ok []
    | x :: rest => y ← f x; ys ← go rest; Ok (y :: ys)
    end.

(** What [json.dump] writes for a value, from left to right: an [int] goes
    through [int.__repr__], which raises [ValueError] above the digit
    limit; every other value here can be written. *)
Fixpoint json_dump (v : pyval) : res json :=
  match v with
  | PNone => Ok JNull
  | PBool b => Ok (JBool b)
  | PInt n => literal ← format_int n; Ok (JInt literal)
  | PFloat x => Ok (JFloat x)
  | PStr s => Ok (JString s)
  | PList items =>
      items' ← res_map json_dump items; Ok (JArray items')
  | PDict items =>
      members ←
        res_map (fun kv => j ← json_dump kv.2; Ok (kv.1, j)) items;
      Ok (JObject members)
  end.

Fixpoint all_digits (s : string) : bool :=
  match s with
  | EmptyString => true
  | String c rest => is_digit c && all_digits rest
  end.

(** The integer literals of JSON: an optional minus sign, then [0] alone
    or a digit from 1 to 9 followed by digits. *)
Definition json_int_literal (s : string) : bool :=
  let digits := match s with String "-" rest => rest | _ => s end in
  match digits with
  | EmptyString => false
  | String "0" rest => match rest with EmptyString => true | _ => false end
  | String c rest => is_digit c && all_digits rest
  end.

(** What [json.load] makes of a JSON text, from left to right: an integer
    literal goes through [int], which raises [ValueError] above the digit
    limit; the members of an object are put into a dictionary one after the
    other. *)
Fixpoint json_decode (j : json) : res pyval :=
  match j with
  | JNull => Ok PNone
  | JBool b => Ok (PBool b)
  | JInt literal =>
      if json_int_literal literal then n ← py_int literal; Ok (PInt n)
      else Raise JSONDecodeError
  | JFloat x => Ok (PFloat x)
  | JString s => Ok (PStr s)
  | JArray items =>
      items' ← res_map json_decode items; Ok (PList items')
  | JObject members =>
      pairs ←
        res_map (fun m => v ← json_decode m.2; Ok (m.1, v)) members;
      Ok (PDict (foldl (fun d kv => dict_set kv.1 kv.2 d) [] pairs))
  end.

(** [datetime.now()], as far as the program looks at it. *)
Record Clock : Type := {
  year : Z;
  month : Z;
  isoformat : string
}.

Definition get_current_season (now : Clock) : string :=
  if 9 <=? month now
  then str_of_int (year now) +:+ "-" +:+ str_of_int (year now + 1)
  else str_of_int (year now - 1) +:+ "-" +:+ str_of_int (year now).

(** The content of a file, by what reading it as UTF-8 and [json.load] meet
    first: bytes that are not UTF-8; a text that is not JSON (and that the
    decoder gives up before any integer literal above the digit limit); a
    nesting of arrays and objects beyond the recursion limit of the
    interpreter; or a JSON text. *)
Inductive FileContent : Type :=
  | NotUtf8
  | NotJson
  | TooDeep
  | JsonDoc (document : json).

(** A path that exists: a file, or something [open] refuses (a directory, a
    file without permission). *)
Inductive Node : Type :=
  | Denied
  | File (content : FileContent).

(** The document [save_to_json] writes. *)
Definition snapshot_document (now : Clock) (data : list TeamRecord) : pyval :=
  PDict
    [("api_version", PStr API_VERSION);
     ("timestamp", PStr (isoformat now));
     ("season", PStr (get_current_season now));
     ("league", PStr "SHL");
     ("table_type", PStr "Total");
     ("data_source", PStr URL);
     ("total_games_in_season", PInt TOTAL_GAMES_IN_SEASON);
     ("teams_count", PInt (Z.of_nat (length data)));
     ("standings", standings_list data)].

(** [save_to_json]: [open(filename, 'w')] raises [IOError] on a path it
    cannot open, and empties the file otherwise; [json.dump] then writes the
    text piece by piece, so an exception on the way leaves the beginning of
    a text, which is not JSON.  Both handlers return [False].  A path that
    does not exist is taken to be one that [open] can create, and the texts
    to be ones that can be encoded as UTF-8. *)
Definition save_to_json (now : Clock) (data : list TeamRecord)
    (filename : string) (fs : gmap string Node) : bool * gmap string Node :=
  let output := snapshot_document now data in
  match fs !! filename with
  | Some Denied => (false, fs)
  | _ =>
      match json_dump output with
      | Ok document => (true, <[filename := File (JsonDoc document)]> fs)
      | Raise _ => (false, <[filename := File NotJson]> fs)
      end
  end.

(** [open(filename, 'r', encoding='utf-8')] followed by [json.load(f)]. *)
Definition json_load (node : Node) : res pyval :=
  match node with
  | Denied => Raise IOError
  | File NotUtf8 => Raise UnicodeDecodeError
  | File NotJson => Raise JSONDecodeError
  | File TooDeep => Raise RecursionError
  | File (JsonDoc document) => json_decode document
  end.

(** The warning of [load_existing_standings]. *)
Inductive LoadWarning : Type :=
  | CouldNotRead (e : exn).

(** [load_existing_standings]: [None] for a path that does not exist; the
    handler of the [try] catches [IOError] and [JSONDecodeError] only. *)
Definition load_existing_standings (filename : string)
    (fs : gmap string Node) : res pyval * list LoadWarning :=
  match fs !! filename with
  | None => (Ok PNone, [])
  | Some node =>
      match data ← json_load node; py_get data "standings" with
      | Ok standings => (Ok standings, [])
      | Raise IOError => (Ok PNone, [CouldNotRead IOError])
      | Raise JSONDecodeError => (Ok PNone, [CouldNotRead JSONDecodeError])
      | Raise e => (Raise e, [])
      end
  end.

(** ** Fetching the page *)

Definition TIMEOUT : Z := 10.
Definition OUTPUT_FILE : string := "standings.json".

(** The exceptions of [requests] that [requests.get] can raise, by the
    handlers they reach: [ConnectTimeout] is a subclass of both
    [ConnectionError] and [Timeout]. *)
Inductive RequestError : Type :=
  | ConnectionFailed
  | ConnectTimeout
  | ReadTimeout
  | OtherRequestError.

(** What [requests.get(url, timeout=TIMEOUT)] comes back with. *)
Inductive HttpResult : Type :=
  | Response (status_code : Z) (text : string)
  | RequestFailed (e : RequestError).

(** The four error lines of [fetch_page]. *)
Inductive FetchError : Type :=
  | FailedToConnect
  | TimedOut
  | HttpError (status_code : Z)
  | RequestError_ (e : RequestError).

Definition is_connection_error (e : RequestError) : bool :=
  match e with
  | ConnectionFailed | ConnectTimeout => true
  | _ => false
  end.

Definition is_timeout (e : RequestError) : bool :=
  match e with
  | ConnectTimeout | ReadTimeout => true
  | _ => false
  end.

(** [response.raise_for_status()] raises [HTTPError] for the status codes
    400 to 599. *)
Definition raises_for_status (status_code : Z) : bool :=
  (400 <=? status_code) && (status_code <? 600).

(** [fetch_page]: the handlers are tried in the order of the source. *)
Definition fetch_page (network : string -> HttpResult) (url : string)
    : option string * list FetchError :=
  match network url with
  | Response status_code text =>
      if raises_for_status status_code then (None, [HttpError status_code])
      else (Some text, [])
  | RequestFailed e =>
      if is_connection_error e then (None, [FailedToConnect])
      else if is_timeout e then (None, [TimedOut])
      else (None, [RequestError_ e])
  end.

(** ** Publishing *)

(** [sub in s]. *)
Fixpoint contains (sub s : string) : bool :=
  if String.prefix sub s then true
  else
    match s with
    | String _ rest => contains sub rest
    | EmptyString => false
    end.

(** The commit message that [git_commit_and_push] makes of the changes. *)
Definition commit_message (changes : list string) : string :=
  match changes with
  | [change] => change
  | _ =>
      let pos_changes := filter (fun c => contains " pos " c = true) changes in
      match pos_changes with
      | [] => str_of_int (Z.of_nat (length changes)) +:+ " teams updated"
      | [pos_change] => pos_change
      | _ => str_of_int (Z.of_nat (length pos_changes)) +:+ " pos changes"
      end
  end.

(** How [subprocess.run(..., check=True)] ends: normally, with
    [CalledProcessError] for a non-zero return code, or with another
    exception (the program cannot be started). *)
Inductive CmdResult : Type :=
  | CmdOk
  | CmdFailed
  | CmdError (e : exn).

(** [git_commit_and_push]: the three commands in turn, up to the first that
    does not end normally; the result and the commands that were run. *)
Definition git_commit_and_push (git : list string -> CmdResult)
    (changes : list string) : bool * list (list string) :=
  let msg := commit_message changes in
  let add := ["git"; "add"; OUTPUT_FILE] in
  let commit := ["git"; "commit"; "-m"; msg] in
  let push := ["git"; "push"] in
  match git add with
  | CmdOk =>
      match git commit with
      | CmdOk =>
          match git push with
          | CmdOk => (true, [add; commit; push])
          | _ => (false, [add; commit; push])
          end
      | _ => (false, [add; commit])
      end
  | _ => (false, [add])
  end.

(** ** The run as a whole *)

(** The keys of a team record, in the order of [record_dict]. *)
Definition record_keys : list string :=
  ["position"; "team"; "games_played"; "wins"; "ties"; "losses"; "ot_wins";
   "ot_losses"; "goals_for"; "goals_against"; "goal_diff"; "points";
   "win_percentage"; "points_per_game"; "goals_per_game"; "games_remaining"].

(** A dictionary of the shape [record_dict] gives, read back as a record. *)
Definition as_record (v : pyval) : option TeamRecord :=
  match v with
  | PDict items =>
      if decide (map fst items = record_keys) then
        match map snd items with
        | [PInt pos; PStr name; PInt gp; PInt w; PInt t; PInt l; PInt otw;
           PInt otl; PInt gf; PInt ga; PInt gd; PInt pts; PFloat wp;
           PFloat ppg; PFloat gpg; PInt gr] =>
            Some {| position := pos; team := name; games_played := gp;
                    wins := w; ties := t; losses := l; ot_wins := otw;
                    ot_losses := otl; goals_for := gf; goals_against := ga;
                    goal_diff := gd; points := pts; win_percentage := wp;
                    points_per_game := ppg; goals_per_game := gpg;
                    games_remaining := gr |}
        | _ => None
        end
      else None
  | _ => None
  end.

(** A list of such dictionaries, read back as a record sequence. *)
Definition as_records (v : pyval) : option (list TeamRecord) :=
  match v with
  | PList items => mapM as_record items
  | _ => None
  end.

(** What the run has around it: the files, the network, the clock and the
    outcome of the [git] commands. *)
Record World : Type := {
  files : gmap string Node;
  network : string -> HttpResult;
  clock : Clock;
  git : list string -> CmdResult
}.

(** How the process ends: [sys.exit(1)] or the return of [main], or an
    exception that nothing catches. *)
Inductive Exit : Type :=
  | Exited (status : Z)
  | Traceback (e : exn).

(** What a run leaves behind. *)
Record Run : Type := {
  exit : Exit;
  files_after : gmap string Node;
  commands : list (list string)
}.

Section Orchestrator.

(** [BeautifulSoup(html, 'html.parser')] with the three [find_all], and the
    order in which a difference of two sets of names is joined. *)
Variable soup : string -> res (list (list (list string))).
Variable set_order : list string -> list string -> gset string -> list string.

(** [parse_standings] from the text of the page on: an exception of the
    HTML parser reaches the handler of the outer [try]. *)
Definition parse_html (html : string) : ParseResult * list Warning :=
  match soup html with
  | Ok page => parse_standings page
  | Raise e => (Failed (ParseFailed e), [])
  end.

(** [main].  The stored value is compared as a sequence of team records;
    the run is not described ([None]) when the file holds, under
    "standings", a value that is not a list of dictionaries of the shape of
    [record_dict]. *)
Definition main (w : World) : option Run :=
  let stop (e : Exit) (fs : gmap string Node) (cmds : list (list string)) :=
    Some {| exit := e; files_after := fs; commands := cmds |} in
  match load_existing_standings OUTPUT_FILE (files w) with
  | (Raise e, _) => stop (Traceback e) (files w) []
  | (Ok existing, _) =>
      match fetch_page (network w) URL with
      | (None, _) => stop (Exited 1) (files w) []
      | (Some html, _) =>
          match parse_html html with
          | (Failed _, _) => stop (Exited 1) (files w) []
          | (Parsed standings, _) =>
              match existing with
              | PNone =>
                  let '(success, fs) :=
                    save_to_json (clock w) standings OUTPUT_FILE (files w) in
                  if success then stop (Exited 0) fs []
                  else stop (Exited 1) fs []
              | _ =>
                  match as_records existing with
                  | None => None
                  | Some old =>
                      match compare_standings set_order old standings with
                      | Raise e => stop (Traceback e) (files w) []
                      | Ok (false, _) => stop (Exited 0) (files w) []
                      | Ok (true, changes) =>
                          let '(success, fs) :=
                            save_to_json (clock w) standings OUTPUT_FILE
                              (files w) in
                          if success
                          then stop (Exited 0) fs
                                 (git_commit_and_push (git w) changes).2
                          else stop (Exited 1) fs []
                      end
                  end
              end
          end
      end
  end.

End Orchestrator.

(** ** Views of the parser used by the statements *)

(** The rows of a table that the loop keeps, in row order: the index of the
    row among the data rows (counted from [position]), its cells and the
    record made of them. *)
Fixpoint extracted (position : Z) (rows : Table)
    : list (Z * list string * TeamRecord) :=
  match rows with
  | [] => []
  | cells :: rest =>
      match row_step position cells with
      | Keep team_data =>
          (position, cells, team_data) :: extracted (position + 1) rest
      | _ => extracted (position + 1) rest
      end
  end.

(** The exception of the first row that stops the loop, if there is one. *)
Fixpoint first_abort (position : Z) (rows : Table) : option exn :=
  match rows with
  | [] => None
  | cells :: rest =>
      match row_step position cells with
      | Abort e => Some e
      | _ => first_abort (position + 1) rest
      end
  end.



(** The integers from [lo] on, [n] of them. *)
Definition count_from (lo : Z) (n : nat) : list Z :=
  map (fun k => lo + Z.of_nat k) (seq 0 n).

(** ** Views of the comparator used by the statements *)

(** The set of the team names of a record sequence. *)
Definition team_names (standings : list TeamRecord) : gset string :=
  list_to_set (map team standings).

(** The invariant of a snapshot: no two records share a team name. *)
Definition unique_teams (standings : list TeamRecord) : Prop :=
  NoDup (map team standings).

(** The two records agree on the position and on the ten scraped counters
    (the calculated fields are free). *)
Definition same_position_and_counters (o n : TeamRecord) : Prop :=
  position o = position n /\
  games_played o = games_played n /\ wins o = wins n /\ ties o = ties n /\
  losses o = losses n /\ ot_wins o = ot_wins n /\
  ot_losses o = ot_losses n /\ goals_for o = goals_for n /\
  goals_against o = goals_against n /\ goal_diff o = goal_diff n /\
  points o = points n.

(** The messages of the membership phase, for the sets of added and of
    removed names and the orders in which the two are joined. *)
Definition membership_messages (added removed : gset string)
    (added_names removed_names : list string) : list string :=
  (if decide (added = ∅) then []
   else ["New teams: " +:+ String.concat ", " added_names])
  ++
  (if decide (removed = ∅) then []
   else ["Removed teams: " +:+ String.concat ", " removed_names]).

(** The order of [hash(name)] is not modelled; the samples are run with the
    order of [elements]. *)
Definition elements_order (minuend subtrahend : list string)
    (names : gset string) : list string :=
  elements names.


(** The text on one counter, if it differs. *)
Definition counter_text (o n : TeamRecord)
    (c : string * (TeamRecord -> Z)) : list string :=
  if bool_decide (c.2 o ≠ c.2 n)
  then [c.1 +:+ " " +:+ str_of_int (c.2 o) +:+ "→" +:+ str_of_int (c.2 n)]
  else [].

(** The texts on the counters of a team, and the messages on the team,
    when every number involved can be formatted. *)
Definition stat_texts (o n : TeamRecord) : list string :=
  flat_map (counter_text o n) raw_counters.

Definition team_texts (o n : TeamRecord) : list string :=
  ((if bool_decide (position o ≠ position n)
    then [team n +:+ ": pos " +:+ str_of_int (position o) +:+ " → "
                 +:+ str_of_int (position n)]
    else [])
   ++
   (match stat_texts o n with
    | [] => []
    | changed => [team n +:+ ": " +:+ String.concat ", " changed]
    end))%list.

(** What the loop over [new] reports for one record, given the lookup of
    the old records by name. *)
Definition team_report (old_by_team : gmap string TeamRecord)
    (n : TeamRecord) : list string :=
  match old_by_team !! team n with
  | Some o => team_texts o n
  | None => []
  end.

(** The two records agree on the ten scraped counters. *)
Definition same_counters (o n : TeamRecord) : Prop :=
  games_played o = games_played n /\ wins o = wins n /\ ties o = ties n /\
  losses o = losses n /\ ot_wins o = ot_wins n /\
  ot_losses o = ot_losses n /\ goals_for o = goals_for n /\
  goals_against o = goals_against n /\ goal_diff o = goal_diff n /\
  points o = points n.


(** ** Views of the store used by the statements *)

(** Every [int] of a value can be written. *)
Fixpoint dumpable (v : pyval) : bool :=
  match v with
  | PInt n => int_str_ok n
  | PList items => forallb dumpable items
  | PDict items => forallb (fun kv => dumpable (snd kv)) items
  | _ => true
  end.

(** No dictionary of a value has a key twice, as it is in Python. *)
Fixpoint unique_keys (v : pyval) : bool :=
  match v with
  | PList items => forallb unique_keys items
  | PDict items =>
      bool_decide (NoDup (map fst items))
      && forallb (fun kv => unique_keys (snd kv)) items
  | _ => true
  end.

(** The file at a path holds the text of the document that a save of
    [data] at the time [now] writes. *)
Definition holds_snapshot (fs : gmap string Node) (filename : string)
    (now : Clock) (data : list TeamRecord) : Prop :=
  exists document,
    json_dump (snapshot_document now data) = Ok document /\
    fs !! filename = Some (File (JsonDoc document)).

(** ** Sample pages, snapshots and stores *)

Definition sample_row (name : string) : list string :=
  [name; "10"; "6"; "0"; "4"; "1"; "2"; "30"; "20"; "10"; "19"].

Definition header_row : list string := [].

(** A row of nine cells. *)
Definition short_row : list string :=
  ["X"; "10"; "6"; "0"; "4"; "1"; "2"; "30"; "20"].

(** Ten data rows, the third of which has nine cells. *)
Definition page_third_row_short : list (list (list string)) :=
  [[header_row; sample_row "A"; sample_row "B"; short_row; sample_row "D";
    sample_row "E"; sample_row "F"; sample_row "G"; sample_row "H";
    sample_row "I"; sample_row "J"]].

(** Two data rows with the same name in the first cell. *)
Definition page_same_name : list (list (list string)) :=
  [[header_row; sample_row "A"; sample_row "A"]].



(** The records of the rows that [page_third_row_short] keeps. *)
Definition records_third_row_short : list TeamRecord :=
  map snd (extracted 1 (tail (default [] (head page_third_row_short)))).

(** The records of the two rows of [page_same_name]. *)
Definition records_same_name : list TeamRecord :=
  map snd (extracted 1 (tail (default [] (head page_same_name)))).

(** Three records as the parser makes them; the floats are 60.0, 1.9 and 3.0
    for [record_A], 50.0, 1.6 and 2.5 for [record_B], 22.22, 0.67 and 1.33
    for [record_C]. *)
Definition record_A : TeamRecord :=
  {| position := 1; team := "A"; games_played := 10; wins := 6; ties := 0;
     losses := 4; ot_wins := 1; ot_losses := 2; goals_for := 30;
     goals_against := 20; goal_diff := 10; points := 19;
     win_percentage := S754_finite false 8444249301319680 (-47);
     points_per_game := S754_finite false 8556839292003942 (-52);
     goals_per_game := S754_finite false 6755399441055744 (-51);
     games_remaining := 42 |}.

Definition record_B : TeamRecord :=
  {| position := 2; team := "B"; games_played := 10; wins := 5; ties := 0;
     losses := 5; ot_wins := 0; ot_losses := 1; goals_for := 25;
     goals_against := 24; goal_diff := 1; points := 16;
     win_percentage := S754_finite false 7036874417766400 (-47);
     points_per_game := S754_finite false 7205759403792794 (-52);
     goals_per_game := S754_finite false 5629499534213120 (-51);
     games_remaining := 42 |}.

Definition record_C : TeamRecord :=
  {| position := 3; team := "C"; games_played := 9; wins := 2; ties := 0;
     losses := 7; ot_wins := 0; ot_losses := 0; goals_for := 12;
     goals_against := 27; goal_diff := -15; points := 6;
     win_percentage := S754_finite false 6254373982510776 (-48);
     points_per_game := S754_finite false 6034823500676465 (-53);
     goals_per_game := S754_finite false 5989787504402760 (-52);
     games_remaining := 43 |}.

(** [record_A] as an older program wrote it: the calculated fields differ. *)
Definition record_A_stale : TeamRecord :=
  {| position := 1; team := "A"; games_played := 10; wins := 6; ties := 0;
     losses := 4; ot_wins := 1; ot_losses := 2; goals_for := 30;
     goals_against := 20; goal_diff := 10; points := 19;
     win_percentage := float_zero;
     points_per_game := float_zero;
     goals_per_game := float_zero;
     games_remaining := 0 |}.

(** [record_A_stale] moved to the second place. *)
Definition record_A_second : TeamRecord :=
  {| position := 2; team := "A"; games_played := 10; wins := 6; ties := 0;
     losses := 4; ot_wins := 1; ot_losses := 2; goals_for := 30;
     goals_against := 20; goal_diff := 10; points := 19;
     win_percentage := float_zero;
     points_per_game := float_zero;
     goals_per_game := float_zero;
     games_remaining := 0 |}.

Definition clock_march : Clock :=
  {| year := 2025; month := 3; isoformat := "2025-03-01T10:00:00" |}.

(** A file that holds the JSON text of an empty array. *)
Definition store_with_array : gmap string Node :=
  {[ "standings.json" := File (JsonDoc (JArray [])) ]}.

(** A file whose bytes are not UTF-8. *)
Definition store_with_bad_bytes : gmap string Node :=
  {[ "standings.json" := File NotUtf8 ]}.



(** [record_A] and [record_B] with their places exchanged. *)
Definition record_A_down : TeamRecord :=
  {| position := 2; team := "A"; games_played := 10; wins := 6; ties := 0;
     losses := 4; ot_wins := 1; ot_losses := 2; goals_for := 30;
     goals_against := 20; goal_diff := 10; points := 19;
     win_percentage := S754_finite false 8444249301319680 (-47);
     points_per_game := S754_finite false 8556839292003942 (-52);
     goals_per_game := S754_finite false 6755399441055744 (-51);
     games_remaining := 42 |}.

Definition record_B_up : TeamRecord :=
  {| position := 1; team := "B"; games_played := 10; wins := 5; ties := 0;
     losses := 5; ot_wins := 0; ot_losses := 1; goals_for := 25;
     goals_against := 24; goal_diff := 1; points := 16;
     win_percentage := S754_finite false 7036874417766400 (-47);
     points_per_game := S754_finite false 7205759403792794 (-52);
     goals_per_game := S754_finite false 5629499534213120 (-51);
     games_remaining := 42 |}.

(** A record whose position has 4301 digits. *)
Definition record_huge : TeamRecord :=
  {| position := 10 ^ 4300; team := "H"; games_played := 0; wins := 0;
     ties := 0; losses := 0; ot_wins := 0; ot_losses := 0; goals_for := 0;
     goals_against := 0; goal_diff := 0; points := 0;
     win_percentage := float_zero;
     points_per_game := float_zero;
     goals_per_game := float_zero;
     games_remaining := 52 |}.

(** The text of [10 ^ 4300 - 1]: 4300 digits. *)
Definition nines : string := String.concat "" (replicate 4300 "9").

(** A page whose only data row has minus [10 ^ 4300 - 1] games played. *)
Definition page_long_season : list (list (list string)) :=
  [[header_row;
    ["A"; "-" +:+ nines; "0"; "0"; "0"; "0"; "0"; "0"; "0"; "0"; "0"]]].

(** The record of that row. *)
Definition record_long_season : TeamRecord :=
  {| position := 1; team := "A"; games_played := - (10 ^ 4300 - 1);
     wins := 0; ties := 0; losses := 0; ot_wins := 0; ot_losses := 0;
     goals_for := 0; goals_against := 0; goal_diff := 0; points := 0;
     win_percentage := float_zero;
     points_per_game := float_zero;
     goals_per_game := float_zero;
     games_remaining := 10 ^ 4300 + 51 |}.

Definition clock_september : Clock :=
  {| year := 2025; month := 9; isoformat := "2025-09-01T00:00:00" |}.

Definition clock_august_after : Clock :=
  {| year := 2026; month := 8; isoformat := "2026-08-31T23:59:59" |}.


(** A page with the rows of [record_A] and [record_B], its text, the HTML
    parser that reads it, a network that serves it and [git] commands that
    work or fail. *)
Definition page_two_teams : list (list (list string)) :=
  [[header_row; sample_row "A";
    ["B"; "10"; "5"; "0"; "5"; "0"; "1"; "25"; "24"; "1"; "16"]]].

Definition sample_soup (html : string) : res (list (list (list string))) :=
  if String.eqb html "<table>A B</table>" then Ok page_two_teams
  else Ok [].

Definition network_ok (url : string) : HttpResult :=
  Response 200 "<table>A B</table>".

Definition network_down (url : string) : HttpResult :=
  RequestFailed ConnectTimeout.

Definition git_ok (cmd : list string) : CmdResult := CmdOk.

Definition git_broken (cmd : list string) : CmdResult := CmdFailed.

Definition world_first_run : World :=
  {| files := ∅; network := network_ok; clock := clock_march; git := git_ok |}.

Definition world_offline : World :=
  {| files := ∅; network := network_down; clock := clock_march;
     git := git_ok |}.

(** The world after a first run, a season later. *)
Definition world_second_run : World :=
  {| files := (save_to_json clock_march [record_A; record_B] OUTPUT_FILE ∅).2;
     network := network_ok; clock := clock_september; git := git_broken |}.

(** A world whose file holds the two teams with their places exchanged. *)
Definition world_places_changed : World :=
  {| files := (save_to_json clock_march [record_B_up; record_A_down]
                 OUTPUT_FILE ∅).2;
     network := network_ok; clock := clock_september; git := git_ok |}.


(** * Properties of the parser *)

Lemma bind_Ok_inv {A B : Type} (c : res A) (k : A -> res B) (v : B) :
  c ≫= k = Ok v -> exists x, c = Ok x /\ k x = Ok v.
Proof. destruct c as [x|e]; simpl; [eauto | discriminate]. Qed.

Lemma bind_Raise_inv {A B : Type} (c : res A) (k : A -> res B) (e : exn) :
  c ≫= k = Raise e -> c = Raise e \/ exists x, c = Ok x /\ k x = Raise e.
Proof.
  destruct c as [x|e']; simpl; [eauto | intros [= ->]; by left].
Qed.

(** Takes a hypothesis on a sequence of binds apart. *)
Ltac step_bind H :=
  let x := fresh "x" in
  let Hx := fresh "Hx" in
  apply bind_Ok_inv in H; destruct H as (x & Hx & H).

Lemma int_of_ascii_raises s e : int_of_ascii s = Raise e -> e = ValueError.
Proof.
  unfold int_of_ascii.
  destruct (match strip s with
            | String "-" rest => (true, rest)
            | String "+" rest => (false, rest)
            | _ => (false, strip s)
            end) as [neg digits].
  destruct (int_unsigned digits) as [[v n]|]; [|congruence].
  destruct (INT_MAX_STR_DIGITS <? n); congruence.
Qed.

Lemma py_int_raises s e : py_int s = Raise e -> e = ValueError.
Proof.
  unfold py_int. destruct (to_ascii 0 0 s); [apply int_of_ascii_raises|].
  congruence.
Qed.

Lemma cell_at_Ok (cells : list string) i :
  (i < length cells)%nat -> exists c, cell_at cells i = Ok c.
Proof.
  intros Hi. unfold cell_at.
  destruct (lookup_lt_is_Some_2 cells i Hi) as [c ->]. eauto.
Qed.

Lemma int_cell_raises (cells : list string) i e :
  (i < length cells)%nat -> int_cell cells i = Raise e -> e = ValueError.
Proof.
  intros Hi. unfold int_cell.
  destruct (cell_at_Ok cells i Hi) as [c ->]. simpl. apply py_int_raises.
Qed.

Lemma true_div_raises a b e :
  0 < b -> true_div a b = Raise e -> e = OverflowError.
Proof.
  intros Hb. unfold true_div.
  destruct (Z.eqb_spec b 0) as [->|_]; [lia|].
  destruct (FLOAT_OVERFLOW * Z.abs b <=? Z.abs a); congruence.
Qed.

Lemma parse_row_position p cells t : parse_row p cells = Ok t -> position t = p.
Proof.
  unfold parse_row. intros H.
  do 14 step_bind H. by injection H as <-.
Qed.

Lemma parse_row_team p cells t :
  parse_row p cells = Ok t -> head cells = Some (team t).
Proof.
  unfold parse_row. intros H.
  step_bind H. do 13 step_bind H. injection H as <-. simpl.
  unfold cell_at in Hx. rewrite head_lookup.
  destruct (cells !! 0%nat); congruence.
Qed.

Ltac step_raise H :=
  let x := fresh "x" in
  let Hx := fresh "Hx" in
  apply bind_Raise_inv in H; destruct H as [H | (x & Hx & H)].

Lemma ratio_raises (c : res pyfloat) e :
  (forall e', c = Raise e' -> e' = OverflowError) ->
  (x ← c; Ok (round2 x)) = Raise e -> e = OverflowError.
Proof.
  intros Hc H. step_raise H; [by apply Hc | discriminate].
Qed.

Lemma plain_ratio_raises n gp e :
  (if 0 <? gp then true_div n gp else Ok float_zero) = Raise e ->
  e = OverflowError.
Proof.
  destruct (Z.ltb_spec 0 gp); [by apply true_div_raises | discriminate].
Qed.

Lemma percent_ratio_raises n gp e :
  (if 0 <? gp then q ← true_div n gp; Ok (float_mul_int q 100)
   else Ok float_zero) = Raise e ->
  e = OverflowError.
Proof.
  destruct (Z.ltb_spec 0 gp) as [Hgp|Hgp]; [|discriminate].
  intros H. step_raise H; [by eapply true_div_raises | discriminate].
Qed.

(** A row of at least eleven cells raises [ValueError] (a cell that is not an
    integer) or [OverflowError] (a quotient too large for a float), and
    nothing else. *)
Lemma parse_row_raises p (cells : list string) e :
  (11 <= length cells)%nat ->
  parse_row p cells = Raise e -> e = ValueError \/ e = OverflowError.
Proof.
  intros Hlen H. unfold parse_row in H.
  step_raise H.
  { destruct (cell_at_Ok cells 0 ltac:(lia)) as [c Hc]. congruence. }
  do 10 (step_raise H; [left; eapply int_cell_raises; [|exact H]; lia|]).
  step_raise H.
  { right. eapply ratio_raises; [|exact H]. apply percent_ratio_raises. }
  step_raise H.
  { right. eapply ratio_raises; [|exact H]. apply plain_ratio_raises. }
  step_raise H.
  { right. eapply ratio_raises; [|exact H]. apply plain_ratio_raises. }
  discriminate.
Qed.

Lemma row_step_Keep_inv p (cells : list string) t :
  row_step p cells = Keep t ->
  (11 <= length cells)%nat /\ parse_row p cells = Ok t.
Proof.
  unfold row_step. destruct (Nat.ltb_spec (length cells) 11); [discriminate|].
  destruct (parse_row p cells) as [t'|[]]; try discriminate.
  intros [= ->]. auto.
Qed.

Lemma row_step_Abort_inv p (cells : list string) e :
  row_step p cells = Abort e ->
  (11 <= length cells)%nat /\ parse_row p cells = Raise e /\ e = OverflowError.
Proof.
  unfold row_step. destruct (Nat.ltb_spec (length cells) 11); [discriminate|].
  destruct (parse_row p cells) as [t'|e'] eqn:Hrow; [discriminate|].
  destruct (parse_row_raises _ _ _ H Hrow) as [-> | ->]; [discriminate|].
  intros [= <-]. auto.
Qed.

Lemma first_abort_overflow rows : forall p e,
  first_abort p rows = Some e -> e = OverflowError.
Proof.
  induction rows as [|cells rest IH]; intros p e; simpl; [discriminate|].
  destruct (row_step p cells) eqn:Hstep; eauto.
  intros [= <-]. by apply row_step_Abort_inv in Hstep as (_ & _ & ->).
Qed.

(** The loop, seen from outside: it stops at the first row that aborts, and
    otherwise appends the extracted records in row order. *)
Lemma parse_rows_fst rows : forall p acc w,
  fst (parse_rows p rows acc w) =
  match first_abort p rows with
  | Some e => Raise e
  | None => Ok (acc ++ map snd (extracted p rows))%list
  end.
Proof.
  induction rows as [|cells rest IH]; intros p acc w; simpl.
  - by rewrite app_nil_r.
  - destruct (row_step p cells) as [t|wn|e]; simpl; rewrite ?IH; try done.
    destruct (first_abort (p + 1) rest); [done|].
    by rewrite <- app_assoc.
Qed.

Lemma extracted_source rows : forall p,
  Forall (fun '(i, cells, t) =>
            p <= i /\ rows !! Z.to_nat (i - p) = Some cells /\
            row_step i cells = Keep t)
         (extracted p rows).
Proof.
  induction rows as [|cells rest IH]; intros p; simpl; [constructor|].
  assert (Htail : Forall (fun '(i, c, t) =>
            p <= i /\ (cells :: rest) !! Z.to_nat (i - p) = Some c /\
            row_step i c = Keep t) (extracted (p + 1) rest)).
  { eapply Forall_impl; [apply IH|]. intros [[i c] t] (Hle & Hlook & Hstep).
    split; [lia|]. split; [|done].
    replace (Z.to_nat (i - p)) with (S (Z.to_nat (i - (p + 1)))) by lia.
    done. }
  destruct (row_step p cells) as [t|wn|e] eqn:Hstep; try done.
  constructor; [|done].
  split; [lia|]. by rewrite Z.sub_diag.
Qed.

Lemma extracted_sorted rows : forall p,
  StronglySorted Z.lt (map (fun x => x.1.1) (extracted p rows)).
Proof.
  induction rows as [|cells rest IH]; intros p; simpl; [constructor|].
  destruct (row_step p cells) as [t|wn|e]; try apply IH.
  simpl. constructor; [apply IH|].
  apply Forall_map. eapply Forall_impl; [apply (extracted_source rest (p + 1))|].
  intros [[i c] t'] (Hle & _). simpl. lia.
Qed.

Lemma extracted_positions rows p :
  map position (map snd (extracted p rows)) =
  map (fun x => x.1.1) (extracted p rows).
Proof.
  rewrite map_map. apply Forall_fmap_ext_1.
  eapply Forall_impl; [apply extracted_source|].
  intros [[i c] t] (_ & _ & Hstep). simpl.
  apply row_step_Keep_inv in Hstep as [_ Hrow].
  by apply parse_row_position in Hrow.
Qed.

Lemma extracted_teams rows p :
  map team (map snd (extracted p rows)) =
  map (fun x => default "" (head x.1.2)) (extracted p rows).
Proof.
  rewrite map_map. apply Forall_fmap_ext_1.
  eapply Forall_impl; [apply extracted_source|].
  intros [[i c] t] (_ & _ & Hstep). simpl.
  apply row_step_Keep_inv in Hstep as [_ Hrow].
  apply parse_row_team in Hrow. by rewrite Hrow.
Qed.

(** The sample rows give the sample records: six wins in ten games are a
    win percentage of 60.0. *)
Example parse_row_samples :
  parse_row 1 (sample_row "A") = Ok record_A /\
  parse_row 2 ["B"; "10"; "5"; "0"; "5"; "0"; "1"; "25"; "24"; "1"; "16"]
    = Ok record_B /\
  parse_row 3 ["C"; "9"; "2"; "0"; "7"; "0"; "0"; "12"; "27"; "-15"; "6"]
    = Ok record_C /\
  win_percentage record_A = SFdiv prec emax (float_of_Z 60) (float_of_Z 1).
Proof. repeat split; vm_compute; reflexivity. Qed.

(** The result of [parse_standings] by cases on the page. *)
Lemma parse_standings_fst (page : list (list (list string))) :
  fst (parse_standings page) =
  match page with
  | [] => Failed NoTableFound
  | table :: _ =>
      if (length table <? 2)%nat then Failed InsufficientRows
      else
        match first_abort 1 (tail table) with
        | Some e => Failed (ParseFailed e)
        | None =>
            match map snd (extracted 1 (tail table)) with
            | [] => Failed NoValidRecords
            | recs => Parsed recs
            end
        end
  end.
Proof.
  unfold parse_standings. destruct page as [|table others]; [done|].
  destruct (length table <? 2)%nat; [done|].
  pose proof (parse_rows_fst (tail table) 1 [] []) as Hloop.
  destruct (parse_rows 1 (tail table) [] []) as [[recs|e] w]; simpl in Hloop.
  - destruct (first_abort 1 (tail table)); [discriminate|].
    injection Hloop as ->. by destruct (map snd _).
  - destruct (first_abort 1 (tail table)); [|discriminate].
    by injection Hloop as ->.
Qed.

(** What a successful parse says about the page. *)
Lemma parse_standings_Parsed (page : list (list (list string))) recs w :
  parse_standings page = (Parsed recs, w) ->
  exists header rows others,
    page = (header :: rows) :: others /\
    first_abort 1 rows = None /\
    recs = map snd (extracted 1 rows) /\
    recs <> [].
Proof.
  intros H. pose proof (parse_standings_fst page) as Hfst.
  rewrite H in Hfst. simpl in Hfst.
  destruct page as [|table others]; [discriminate|].
  destruct (Nat.ltb_spec (length table) 2); [discriminate|].
  destruct table as [|header rows]; [simpl in *; lia|]. simpl in Hfst.
  exists header, rows, others. split; [done|].
  destruct (first_abort 1 rows); [discriminate|]. split; [done|].
  destruct (map snd (extracted 1 rows)) as [|t l]; [discriminate|].
  injection Hfst as ->. done.
Qed.

(** C1 (as stated, refuted): with the third of ten data rows malformed, the
    nine records do not carry the positions 1 to 9: the positions are those
    of the source rows, 1, 2, 4, ..., 10. *)
Lemma positions_not_compressed :
  exists recs w,
    parse_standings page_third_row_short = (Parsed recs, w) /\
    length recs = 9%nat /\
    w = [SkippedShortRow 9] /\
    map position recs = [1; 2; 4; 5; 6; 7; 8; 9; 10] /\
    map position recs <> count_from 1 (length recs).
Proof.
  eexists _, _. split; [vm_compute; reflexivity|].
  repeat split; try reflexivity. vm_compute. discriminate.
Qed.

(** C1 (amended): on every page that parses, the position of each returned
    record is the 1-based index of its source row among all data rows of the
    table, skipped rows included: the record at position [p] was made from
    the [p]-th data row, and the positions of the records are, in order, the
    indices of the rows that were kept. *)
Theorem parse_positions_are_source_rows
    (page : list (list (list string))) recs w :
  parse_standings page = (Parsed recs, w) ->
  exists header rows others,
    page = (header :: rows) :: others /\
    map position recs = map (fun x => x.1.1) (extracted 1 rows) /\
    Forall (fun t =>
              1 <= position t /\
              exists cells,
                rows !! Z.to_nat (position t - 1) = Some cells /\
                (11 <= length cells)%nat /\
                parse_row (position t) cells = Ok t)
           recs.
Proof.
  intros H. apply parse_standings_Parsed in H
    as (header & rows & others & -> & _ & -> & _).
  exists header, rows, others. split; [done|].
  split; [apply extracted_positions|].
  apply Forall_map. eapply Forall_impl; [apply extracted_source|].
  intros [[i c] t] (Hle & Hlook & Hstep). simpl.
  apply row_step_Keep_inv in Hstep as [Hlen Hrow].
  rewrite (parse_row_position _ _ _ Hrow). eauto.
Qed.

Lemma parse_positions_are_source_rows_witness :
  parse_standings page_third_row_short
    = (Parsed records_third_row_short, [SkippedShortRow 9]) /\
  exists header rows others,
    page_third_row_short = (header :: rows) :: others /\
    map position records_third_row_short
      = map (fun x => x.1.1) (extracted 1 rows) /\
    Forall (fun t =>
              1 <= position t /\
              exists cells,
                rows !! Z.to_nat (position t - 1) = Some cells /\
                (11 <= length cells)%nat /\
                parse_row (position t) cells = Ok t)
           records_third_row_short.
Proof.
  assert (H : parse_standings page_third_row_short
              = (Parsed records_third_row_short, [SkippedShortRow 9]))
    by (vm_compute; reflexivity).
  split; [exact H | exact (parse_positions_are_source_rows _ _ _ H)].
Defined.

(** C10: on every page that parses, the positions of the returned records
    are strictly increasing in output order, each is at least 1, and each is
    bounded above by the index of the data row the record was made from. *)
Theorem parse_positions_increasing
    (page : list (list (list string))) recs w :
  parse_standings page = (Parsed recs, w) ->
  StronglySorted Z.lt (map position recs) /\
  Forall (fun t => 1 <= position t) recs /\
  exists header rows others,
    page = (header :: rows) :: others /\
    recs = map snd (extracted 1 rows) /\
    Forall (fun '(i, cells, t) =>
              rows !! Z.to_nat (i - 1) = Some cells /\
              row_step i cells = Keep t /\
              position t <= i)
           (extracted 1 rows).
Proof.
  intros H. apply parse_standings_Parsed in H
    as (header & rows & others & -> & _ & -> & _).
  pose proof (extracted_source rows 1) as Hsrc.
  split; [rewrite extracted_positions; apply extracted_sorted|].
  split.
  - apply Forall_map. eapply Forall_impl; [exact Hsrc|].
    intros [[i c] t] (Hle & _ & Hstep). simpl.
    apply row_step_Keep_inv in Hstep as [_ Hrow].
    rewrite (parse_row_position _ _ _ Hrow). done.
  - exists header, rows, others. do 2 (split; [done|]).
    eapply Forall_impl; [exact Hsrc|].
    intros [[i c] t] (Hle & Hlook & Hstep). do 2 (split; [done|]).
    apply row_step_Keep_inv in Hstep as [_ Hrow].
    rewrite (parse_row_position _ _ _ Hrow). lia.
Qed.

Lemma parse_positions_increasing_witness :
  parse_standings page_third_row_short
    = (Parsed records_third_row_short, [SkippedShortRow 9]) /\
  StronglySorted Z.lt (map position records_third_row_short) /\
  Forall (fun t => 1 <= position t) records_third_row_short.
Proof.
  assert (H : parse_standings page_third_row_short
              = (Parsed records_third_row_short, [SkippedShortRow 9]))
    by (vm_compute; reflexivity).
  split; [exact H|].
  split; [exact (proj1 (parse_positions_increasing _ _ _ H))
         | exact (proj1 (proj2 (parse_positions_increasing _ _ _ H)))].
Defined.

(** C2 (as stated, refuted): two data rows with the same first cell give two
    records with the same team name. *)
Lemma team_names_not_unique :
  exists recs w,
    parse_standings page_same_name = (Parsed recs, w) /\
    map team recs = ["A"; "A"] /\
    ~ NoDup (map team recs).
Proof.
  eexists _, _. split; [vm_compute; reflexivity|].
  split; [reflexivity|].
  intros Hnd. apply NoDup_cons_1_1 in Hnd. apply Hnd. vm_compute. left.
Qed.

(** C2 (amended): on every page that parses, the team names of the returned
    records are, in order, the texts of the first cells of the rows that
    were kept; nothing checks them for duplicates, so they are pairwise
    distinct exactly when those first cells are. *)
Theorem parse_team_names_are_first_cells
    (page : list (list (list string))) recs w :
  parse_standings page = (Parsed recs, w) ->
  exists header rows others,
    page = (header :: rows) :: others /\
    map team recs =
      map (fun x => default "" (head x.1.2)) (extracted 1 rows) /\
    (NoDup (map team recs) <->
     NoDup (map (fun x => default "" (head x.1.2)) (extracted 1 rows))).
Proof.
  intros H. apply parse_standings_Parsed in H
    as (header & rows & others & -> & _ & -> & _).
  exists header, rows, others. split; [done|].
  rewrite extracted_teams. done.
Qed.

Lemma parse_team_names_are_first_cells_witness :
  parse_standings page_same_name = (Parsed records_same_name, []) /\
  exists header rows others,
    page_same_name = (header :: rows) :: others /\
    map team records_same_name =
      map (fun x => default "" (head x.1.2)) (extracted 1 rows) /\
    (NoDup (map team records_same_name) <->
     NoDup (map (fun x => default "" (head x.1.2)) (extracted 1 rows))).
Proof.
  assert (H : parse_standings page_same_name = (Parsed records_same_name, []))
    by (vm_compute; reflexivity).
  split; [exact H | exact (parse_team_names_are_first_cells _ _ _ H)].
Defined.















(** * Properties of the comparator *)

Lemma by_team_snoc l t : by_team (l ++ [t]) = <[team t := t]> (by_team l).
Proof. unfold by_team. by rewrite foldl_app. Qed.

Lemma by_team_lookup_Some l k o :
  by_team l !! k = Some o -> o ∈ l /\ team o = k.
Proof.
  induction l as [|t l IH] using rev_ind.
  { unfold by_team. simpl. by rewrite lookup_empty. }
  rewrite by_team_snoc. intros H.
  destruct (decide (team t = k)) as [<-|Hne].
  - rewrite lookup_insert_eq in H. injection H as <-.
    split; [|done]. apply elem_of_app. right. by left.
  - rewrite lookup_insert_ne in H by done.
    destruct (IH H) as [Hin Hk]. split; [|done].
    apply elem_of_app. by left.
Qed.

Lemma by_team_dom l : dom (by_team l) = team_names l.
Proof.
  unfold team_names.
  induction l as [|t l IH] using rev_ind.
  { unfold by_team. simpl. by rewrite dom_empty_L. }
  rewrite by_team_snoc, dom_insert_L, IH, map_app, list_to_set_app_L.
  simpl. rewrite (right_id_L ∅ (∪)). apply (comm_L (∪)).
Qed.

Lemma format_int_cases n :
  format_int n = Ok (str_of_int n) \/ format_int n = Raise ValueError.
Proof. unfold format_int. destruct (int_str_ok n); auto. Qed.


Lemma stat_changes_same o n : same_counters o n -> stat_changes o n = Ok [].
Proof.
  intros (H1 & H2 & H3 & H4 & H5 & H6 & H7 & H8 & H9 & H10).
  unfold stat_changes, raw_counters. simpl.
  rewrite !bool_decide_eq_false_2 by (intros Hne; by apply Hne). done.
Qed.

Lemma team_changes_same o n :
  same_position_and_counters o n -> team_changes o n = Ok [].
Proof.
  intros (Hp & Hc). unfold team_changes.
  rewrite bool_decide_eq_false_2 by (intros Hne; by apply Hne).
  by rewrite (stat_changes_same o n Hc).
Qed.

Lemma compare_teams_same old_by_team new : forall changes,
  (forall n, n ∈ new ->
     exists o, old_by_team !! team n = Some o /\
               same_position_and_counters o n) ->
  compare_teams old_by_team new changes = Ok changes.
Proof.
  induction new as [|n rest IH]; intros changes Hall; simpl; [done|].
  destruct (Hall n) as (o & -> & Hsame); [by left|].
  rewrite (team_changes_same _ _ Hsame). simpl. rewrite app_nil_r.
  apply IH. intros n' Hin. apply Hall. by right.
Qed.

(** The core of the last phase: when lengths and name sets agree and the
    records of one name agree on position and counters, nothing is
    reported. *)
Lemma compare_no_changes set_order old new :
  length old = length new ->
  team_names old = team_names new ->
  (forall o n, o ∈ old -> n ∈ new -> team o = team n ->
               same_position_and_counters o n) ->
  compare_standings set_order old new = Ok (false, []).
Proof.
  intros Hlen Hnames Hsame. unfold compare_standings.
  rewrite bool_decide_eq_false_2 by (intros Hne; by apply Hne).
  rewrite !by_team_dom.
  rewrite bool_decide_eq_false_2 by (intros Hne; by apply Hne).
  rewrite compare_teams_same; [done|].
  intros n Hn.
  assert (team n ∈ dom (by_team old)) as Hdom.
  { rewrite by_team_dom, Hnames. unfold team_names.
    apply elem_of_list_to_set, list_elem_of_fmap. eauto. }
  apply elem_of_dom in Hdom as [o Ho]. exists o. split; [done|].
  apply by_team_lookup_Some in Ho as [Hin Hteam]. by apply Hsame.
Qed.

Lemma unique_teams_inj l o n :
  unique_teams l -> o ∈ l -> n ∈ l -> team o = team n -> o = n.
Proof.
  unfold unique_teams. induction l as [|t l IH]; simpl; intros Hnd Ho Hn Heq.
  - by apply elem_of_nil in Ho.
  - apply NoDup_cons in Hnd as [Hnotin Hnd].
    apply elem_of_cons in Ho as [->|Ho]; apply elem_of_cons in Hn as [->|Hn].
    + done.
    + exfalso. apply Hnotin. rewrite Heq. apply list_elem_of_fmap. eauto.
    + exfalso. apply Hnotin. rewrite <- Heq. apply list_elem_of_fmap. eauto.
    + by apply IH.
Qed.

Lemma same_position_and_counters_refl t : same_position_and_counters t t.
Proof. unfold same_position_and_counters. tauto. Qed.

(** C4: comparing a valid snapshot (no two records of one team) with itself
    reports no change and no message. *)
Theorem compare_same_snapshot set_order (X : list TeamRecord) :
  unique_teams X ->
  compare_standings set_order X X = Ok (false, []).
Proof.
  intros Hvalid. apply compare_no_changes; [done..|].
  intros o n Ho Hn Heq.
  rewrite (unique_teams_inj X o n Hvalid Ho Hn Heq).
  apply same_position_and_counters_refl.
Qed.

Lemma compare_same_snapshot_witness :
  unique_teams [record_A; record_B; record_C] /\
  compare_standings elements_order [record_A; record_B; record_C]
    [record_A; record_B; record_C] = Ok (false, []).
Proof.
  assert (Hvalid : unique_teams [record_A; record_B; record_C]).
  { unfold unique_teams. apply (bool_decide_unpack _). vm_compute. exact I. }
  split; [exact Hvalid|].
  apply (compare_same_snapshot elements_order _ Hvalid).
Defined.

(** Without the invariant the comparison of a sequence with itself can
    report a change: the lookup by name finds the last record of a name. *)
Example compare_same_sequence_duplicate_name :
  compare_standings elements_order [record_A; record_A_second]
    [record_A; record_A_second]
  = Ok (true, ["A: pos 2 → 1"]).
Proof. vm_compute. reflexivity. Qed.

(** C5: when the two sequences differ in length, the comparison reports a
    change with exactly one message, the one on the count, and the report
    depends on the two lengths only, whatever the records hold. *)
Theorem compare_count_change set_order (old new : list TeamRecord) :
  length old <> length new ->
  compare_standings set_order old new =
    Ok (true,
        ["Team count changed: " +:+ str_of_int (Z.of_nat (length old))
           +:+ " → " +:+ str_of_int (Z.of_nat (length new))]) /\
  forall old' new' : list TeamRecord,
    length old' = length old -> length new' = length new ->
    compare_standings set_order old' new' =
    compare_standings set_order old new.
Proof.
  intros Hlen.
  assert (Hshort : forall o n : list TeamRecord,
            length o <> length n ->
            compare_standings set_order o n =
              Ok (true,
                  ["Team count changed: " +:+ str_of_int (Z.of_nat (length o))
                     +:+ " → " +:+ str_of_int (Z.of_nat (length n))])).
  { intros o n Hne. unfold compare_standings.
    by rewrite bool_decide_eq_true_2. }
  split; [by apply Hshort|].
  intros old' new' Ho Hn.
  rewrite !Hshort by congruence. by rewrite Ho, Hn.
Qed.

Lemma compare_count_change_witness :
  length [record_A; record_B] <> length [record_B; record_A; record_C] /\
  compare_standings elements_order [record_A; record_B]
    [record_B; record_A; record_C]
  = Ok (true, ["Team count changed: 2 → 3"]).
Proof.
  assert (H : length [record_A; record_B]
              <> length [record_B; record_A; record_C]) by (simpl; lia).
  split; [exact H|].
  exact (proj1 (compare_count_change elements_order _ _ H)).
Defined.

Lemma compare_membership_eq set_order (old new : list TeamRecord) :
  length old = length new ->
  team_names old <> team_names new ->
  compare_standings set_order old new =
    Ok (true,
        membership_messages
          (team_names new ∖ team_names old)
          (team_names old ∖ team_names new)
          (set_order (map team new) (map team old)
             (team_names new ∖ team_names old))
          (set_order (map team old) (map team new)
             (team_names old ∖ team_names new))).
Proof.
  intros Hlen Hnames. unfold compare_standings, membership_messages.
  rewrite bool_decide_eq_false_2 by (intros Hne; by apply Hne).
  rewrite !by_team_dom. rewrite bool_decide_eq_true_2 by done.
  do 2 f_equal. f_equal.
  - destruct (decide (team_names new ∖ team_names old = ∅)) as [He|He].
    + by rewrite bool_decide_eq_false_2 by (intros Hne; by apply Hne).
    + by rewrite bool_decide_eq_true_2.
  - destruct (decide (team_names old ∖ team_names new = ∅)) as [He|He].
    + by rewrite bool_decide_eq_false_2 by (intros Hne; by apply Hne).
    + by rewrite bool_decide_eq_true_2.
Qed.

Lemma difference_both_empty (a b : gset string) :
  a ∖ b = ∅ -> b ∖ a = ∅ -> a = b.
Proof.
  intros Hab Hba. apply set_eq. intros x. split; intros Hx.
  - destruct (decide (x ∈ b)) as [|Hn]; [done|].
    assert (x ∈ a ∖ b) as Hd by (apply elem_of_difference; done).
    rewrite Hab in Hd. by apply not_elem_of_empty in Hd.
  - destruct (decide (x ∈ a)) as [|Hn]; [done|].
    assert (x ∈ b ∖ a) as Hd by (apply elem_of_difference; done).
    rewrite Hba in Hd. by apply not_elem_of_empty in Hd.
Qed.

Lemma elem_of_names_difference (xs ys : list TeamRecord) x :
  x ∈ team_names xs ∖ team_names ys <->
  x ∈ map team xs /\ x ∉ map team ys.
Proof.
  unfold team_names. by rewrite elem_of_difference, !elem_of_list_to_set.
Qed.

(** C6: when the two sequences have the same length and their sets of team
    names differ, the comparison reports a change with membership messages
    only: one that lists the names in [new] and not in [old], if there are
    any, then one that lists the names in [old] and not in [new], if there
    are any; at least one of them is there.  Each name is listed once, in
    an order that the program does not fix.  The report depends on the team
    names of the two sequences only (taken in the order of the sequences),
    so no position and no counter is looked at. *)
Theorem compare_membership_change set_order (old new : list TeamRecord) :
  (forall minuend subtrahend s,
     set_order minuend subtrahend s ≡ₚ elements s) ->
  length old = length new ->
  team_names old <> team_names new ->
  let added := team_names new ∖ team_names old in
  let removed := team_names old ∖ team_names new in
  let added_names := set_order (map team new) (map team old) added in
  let removed_names := set_order (map team old) (map team new) removed in
  exists msgs,
    compare_standings set_order old new = Ok (true, msgs) /\
    msgs = membership_messages added removed added_names removed_names /\
    msgs <> [] /\
    (forall x, x ∈ added_names <-> x ∈ map team new /\ x ∉ map team old) /\
    (forall x, x ∈ removed_names <-> x ∈ map team old /\ x ∉ map team new) /\
    NoDup added_names /\ NoDup removed_names /\
    (forall old' new' : list TeamRecord,
       map team old' = map team old ->
       map team new' = map team new ->
       compare_standings set_order old' new' =
       compare_standings set_order old new).
Proof.
  intros Hperm Hlen Hnames added removed added_names removed_names.
  exists (membership_messages added removed added_names removed_names).
  split; [by apply compare_membership_eq|]. split; [done|].
  split.
  { unfold membership_messages.
    destruct (decide (added = ∅)) as [Ha|Ha]; [|done].
    destruct (decide (removed = ∅)) as [Hr|Hr]; [|done].
    exfalso. apply Hnames. symmetry. by apply difference_both_empty. }
  split.
  { intros x. unfold added_names. rewrite (Hperm _ _ added), elem_of_elements.
    apply elem_of_names_difference. }
  split.
  { intros x. unfold removed_names.
    rewrite (Hperm _ _ removed), elem_of_elements.
    apply elem_of_names_difference. }
  split; [unfold added_names; rewrite (Hperm _ _ added); apply NoDup_elements|].
  split;
    [unfold removed_names; rewrite (Hperm _ _ removed); apply NoDup_elements|].
  intros old' new' Ho Hn.
  assert (Hno : team_names old' = team_names old)
    by (unfold team_names; by rewrite Ho).
  assert (Hnn : team_names new' = team_names new)
    by (unfold team_names; by rewrite Hn).
  assert (Hlen' : length old' = length new').
  { rewrite <- (length_map team old'), <- (length_map team new'), Ho, Hn.
    by rewrite !length_map. }
  rewrite !compare_membership_eq by congruence.
  by rewrite Ho, Hn, Hno, Hnn.
Qed.

Lemma compare_membership_change_witness :
  exists msgs,
    compare_standings elements_order [record_A; record_B] [record_A; record_C]
      = Ok (true, msgs) /\
    msgs = ["New teams: C"; "Removed teams: B"].
Proof.
  destruct (compare_membership_change elements_order [record_A; record_B]
              [record_A; record_C])
    as (msgs & Hcmp & Hmsgs & _).
  - intros a b s. reflexivity.
  - reflexivity.
  - apply (bool_decide_unpack _). vm_compute. exact I.
  - exists msgs. split; [exact Hcmp|]. rewrite Hmsgs. vm_compute. reflexivity.
Defined.

(** C7: when the two sequences have the same length and the same set of
    team names, and the records of one name agree on the position and on the
    ten scraped counters, the comparison reports no change and no message,
    whatever the calculated fields are on the two sides. *)
Theorem compare_ignores_calculated_fields set_order
    (old new : list TeamRecord) :
  length old = length new ->
  team_names old = team_names new ->
  (forall o n, o ∈ old -> n ∈ new -> team o = team n ->
               same_position_and_counters o n) ->
  compare_standings set_order old new = Ok (false, []).
Proof. apply compare_no_changes. Qed.

Lemma compare_ignores_calculated_fields_witness :
  win_percentage record_A_stale <> win_percentage record_A /\
  points_per_game record_A_stale <> points_per_game record_A /\
  goals_per_game record_A_stale <> goals_per_game record_A /\
  games_remaining record_A_stale <> games_remaining record_A /\
  compare_standings elements_order [record_A_stale; record_B]
    [record_A; record_B]
    = Ok (false, []).
Proof.
  do 4 (split; [discriminate|]).
  apply (compare_ignores_calculated_fields elements_order
           [record_A_stale; record_B] [record_A; record_B]).
  - reflexivity.
  - reflexivity.
  - intros o n Ho Hn Hteam.
    apply elem_of_cons in Ho as [->|Ho]; apply elem_of_cons in Hn as [->|Hn];
      repeat match goal with
        | H : _ ∈ [_] |- _ => apply list_elem_of_singleton in H; subst
        end;
      try discriminate Hteam;
      unfold same_position_and_counters; simpl; repeat split; reflexivity.
Defined.

(** * Integers and their texts *)

Lemma pretty_N_char_digit m :
  (m < 10)%N ->
  is_digit (pretty_N_char m) = true /\
  is_space (pretty_N_char m) = false /\
  digit_value (pretty_N_char m) = Z.of_N m.
Proof.
  intros Hm.
  assert (m = 0 \/ m = 1 \/ m = 2 \/ m = 3 \/ m = 4 \/ m = 5 \/ m = 6 \/
          m = 7 \/ m = 8 \/ m = 9)%N as Hcases by lia.
  destruct Hcases as [->|[->|[->|[->|[->|[->|[->|[->|[->| ->]]]]]]]]];
    by vm_compute.
Qed.

(** Reading the digits that [pretty_N_go] has put in front of [s]. *)
Lemma int_digits_pretty_N_go x : forall s,
  exists d : nat,
    String.length (pretty_N_go x s) = (String.length s + d)%nat /\
    forall acc k,
      int_digits acc k (pretty_N_go x s) =
      int_digits (acc * 10 ^ Z.of_nat d + Z.of_N x) (k + Z.of_nat d) s.
Proof.
  induction (N.lt_wf_0 x) as [x _ IH]; intros s.
  destruct (decide (x = 0)%N) as [->|Hx].
  { exists 0%nat. rewrite pretty_N_go_0. split; [lia|]. intros acc k.
    f_equal; simpl; lia. }
  rewrite pretty_N_go_step by lia.
  destruct (IH (x `div` 10)%N ltac:(apply N.div_lt; lia)
              (String (pretty_N_char (x `mod` 10)) s)) as (d & Hlen & Hread).
  exists (S d). split; [rewrite Hlen; simpl; lia|].
  intros acc k. rewrite Hread.
  destruct (pretty_N_char_digit (x `mod` 10)%N) as (Hdig & _ & Hval).
  { apply N.mod_lt. lia. }
  cbn [int_digits]. rewrite Hdig, Hval.
  f_equal; [|lia].
  rewrite Nat2Z.inj_succ, Z.pow_succ_r by lia.
  pose proof (N.div_mod x 10 ltac:(lia)) as Hdm.
  apply (f_equal Z.of_N) in Hdm. rewrite N2Z.inj_add, N2Z.inj_mul in Hdm.
  change (Z.of_N 10) with 10 in Hdm. lia.
Qed.

(** The text of a positive number starts with a digit and has no white
    space at its end. *)
Lemma pretty_N_go_shape x : forall s,
  (0 < x)%N -> rstrip s = s ->
  rstrip (pretty_N_go x s) = pretty_N_go x s /\
  exists m rest,
    (m < 10)%N /\ pretty_N_go x s = String (pretty_N_char m) rest.
Proof.
  induction (N.lt_wf_0 x) as [x _ IH]; intros s Hx Hs.
  rewrite pretty_N_go_step by done.
  assert (Hm : (x `mod` 10 < 10)%N) by (apply N.mod_lt; lia).
  assert (Hs' : rstrip (String (pretty_N_char (x `mod` 10)) s)
                = String (pretty_N_char (x `mod` 10)) s).
  { cbn [rstrip]. rewrite Hs.
    destruct (pretty_N_char_digit _ Hm) as (_ & -> & _). by destruct s. }
  destruct (decide (x `div` 10 = 0)%N) as [->|Hd].
  - rewrite pretty_N_go_0. split; [done|]. eauto.
  - apply IH; [apply N.div_lt; lia | by apply N.neq_0_lt_0 | done].
Qed.

Lemma py_int_pretty_pos p :
  exists d : nat,
    String.length (pretty (Z.pos p)) = d /\
    strip (pretty (Z.pos p)) = pretty (Z.pos p) /\
    (exists m rest, (m < 10)%N /\
                    pretty (Z.pos p) = String (pretty_N_char m) rest) /\
    int_unsigned (pretty (Z.pos p)) = Some (Z.pos p, Z.of_nat d).
Proof.
  change (pretty (Z.pos p)) with (pretty_N_go (N.pos p) "").
  destruct (int_digits_pretty_N_go (N.pos p) "") as (d & Hlen & Hread).
  destruct (pretty_N_go_shape (N.pos p) "" ltac:(lia) eq_refl)
    as (Hr & m & rest & Hm & Hshape).
  destruct (pretty_N_char_digit m Hm) as (Hdig & Hsp & Hval).
  exists d. split; [rewrite Hlen; simpl; lia|].
  split.
  { unfold strip. rewrite Hshape. cbn [lstrip]. rewrite Hsp.
    by rewrite <- Hshape. }
  split; [eauto|].
  specialize (Hread 0 0). rewrite Hshape in Hread |- *.
  cbn [int_digits] in Hread. rewrite Hdig in Hread.
  cbn [int_unsigned]. rewrite Hdig.
  replace (10 * 0 + digit_value (pretty_N_char m))
    with (digit_value (pretty_N_char m)) in Hread by lia.
  change (0 + 1) with 1 in Hread. rewrite Hread. cbn [int_digits].
  by f_equal.
Qed.

Lemma to_ascii_cons c s :
  (N_of_ascii c <? 128)%N = true -> to_ascii 0 0 s = Some s ->
  to_ascii 0 0 (String c s) = Some (String c s).
Proof. intros Hc Hs. cbn [to_ascii]. by rewrite Hc, Hs. Qed.

Lemma pretty_N_char_ascii m : (N_of_ascii (pretty_N_char m) <? 128)%N = true.
Proof. unfold pretty_N_char. by repeat case_match. Qed.

Lemma to_ascii_pretty_N_go x : forall s,
  to_ascii 0 0 s = Some s ->
  to_ascii 0 0 (pretty_N_go x s) = Some (pretty_N_go x s).
Proof.
  induction (N.lt_wf_0 x) as [x _ IH]; intros s Hs.
  destruct (decide (x = 0)%N) as [->|Hx]; [by rewrite pretty_N_go_0|].
  rewrite pretty_N_go_step by lia.
  apply IH; [apply N.div_lt; lia|].
  apply to_ascii_cons; [apply pretty_N_char_ascii | done].
Qed.

Lemma to_ascii_str_of_int n : to_ascii 0 0 (str_of_int n) = Some (str_of_int n).
Proof.
  unfold str_of_int. destruct n as [|p|p].
  - reflexivity.
  - change (pretty (Z.pos p)) with (pretty_N_go (N.pos p) "").
    by apply to_ascii_pretty_N_go.
  - change (pretty (Z.neg p)) with (String "-" (pretty_N_go (N.pos p) "")).
    apply to_ascii_cons; [done|]. by apply to_ascii_pretty_N_go.
Qed.

Lemma int_of_ascii_str_of_int n :
  int_str_ok n = true -> int_of_ascii (str_of_int n) = Ok n.
Proof.
  unfold int_str_ok, decimal_digits, str_of_int. intros Hok.
  apply Z.leb_le in Hok.
  destruct n as [|p|p].
  - reflexivity.
  - destruct (py_int_pretty_pos p)
      as (d & Hlen & Hstrip & (m & rest & Hm & Hshape) & Hread).
    change (Z.abs (Z.pos p)) with (Z.pos p) in Hok. rewrite Hlen in Hok.
    unfold int_of_ascii. rewrite Hstrip.
    assert (Hbody : match pretty (Z.pos p) with
                    | String "-" r => (true, r)
                    | String "+" r => (false, r)
                    | _ => (false, pretty (Z.pos p))
                    end = (false, pretty (Z.pos p))).
    { rewrite Hshape.
      assert (m = 0 \/ m = 1 \/ m = 2 \/ m = 3 \/ m = 4 \/ m = 5 \/ m = 6 \/
              m = 7 \/ m = 8 \/ m = 9)%N as Hcases by lia.
      destruct Hcases as [->|[->|[->|[->|[->|[->|[->|[->|[->| ->]]]]]]]]];
        reflexivity. }
    rewrite Hbody, Hread.
    destruct (Z.ltb_spec INT_MAX_STR_DIGITS (Z.of_nat d)) as [Hgt|_];
      [unfold INT_MAX_STR_DIGITS in *; lia | done].
  - destruct (py_int_pretty_pos p)
      as (d & Hlen & Hstrip & (m & rest & Hm & Hshape) & Hread).
    change (Z.abs (Z.neg p)) with (Z.pos p) in Hok. rewrite Hlen in Hok.
    unfold int_of_ascii.
    change (pretty (Z.neg p)) with (String "-" (pretty (Z.pos p))).
    assert (Hs : strip (String "-" (pretty (Z.pos p)))
                 = String "-" (pretty (Z.pos p))).
    { unfold strip in *. cbn [lstrip]. change (is_space "-") with false.
      cbv iota. cbn [rstrip].
      rewrite Hshape in Hstrip |- *. cbn [lstrip] in Hstrip.
      destruct (pretty_N_char_digit m Hm) as (_ & Hsp & _).
      rewrite Hsp in Hstrip. rewrite Hstrip. done. }
    rewrite Hs, Hread.
    destruct (Z.ltb_spec INT_MAX_STR_DIGITS (Z.of_nat d)) as [Hgt|_];
      [unfold INT_MAX_STR_DIGITS in *; lia | done].
Qed.

Lemma pretty_N_go_length_ge x s :
  (String.length s <= String.length (pretty_N_go x s))%nat.
Proof.
  revert s. induction (N.lt_wf_0 x) as [x _ IH]; intros s.
  destruct (decide (x = 0)%N) as [->|Hx]; [by rewrite pretty_N_go_0|].
  rewrite pretty_N_go_step by lia.
  etrans; [|apply IH; apply N.div_lt; lia]. simpl. lia.
Qed.

Lemma pretty_N_go_length_pow (k : nat) : forall x s,
  (10 ^ N.of_nat k <= x)%N ->
  (String.length s + k + 1 <= String.length (pretty_N_go x s))%nat.
Proof.
  induction k as [|k IH]; intros x s Hx.
  - change (10 ^ N.of_nat 0)%N with 1%N in Hx.
    rewrite pretty_N_go_step by lia.
    etrans; [|apply pretty_N_go_length_ge]. simpl. lia.
  - assert (0 < x)%N.
    { eapply N.lt_le_trans; [|exact Hx]. apply N.neq_0_lt_0.
      by apply N.pow_nonzero. }
    rewrite pretty_N_go_step by done.
    etrans; [|apply IH].
    + simpl. lia.
    + apply N.div_le_lower_bound; [done|].
      rewrite Nat2N.inj_succ, N.pow_succ_r' in Hx. exact Hx.
Qed.

(** An integer of more than 4300 digits cannot be written. *)
Lemma int_str_ok_large n : 10 ^ 4300 <= Z.abs n -> int_str_ok n = false.
Proof.
  intros Hn. unfold int_str_ok, decimal_digits, INT_MAX_STR_DIGITS.
  apply Z.leb_gt.
  assert (Hp : exists p, Z.abs n = Z.pos p /\
                         (10 ^ N.of_nat 4300 <= N.pos p)%N).
  { remember (10 ^ 4300) as B eqn:HB.
    assert (Hpos : 0 < B) by (subst B; by apply Z.pow_pos_nonneg).
    destruct (Z.abs n) as [|p|p] eqn:Habs; [clear HB; lia| |clear HB; lia].
    exists p. split; [done|].
    apply N2Z.inj_le. rewrite N2Z.inj_pow, nat_N_Z.
    change (Z.of_N 10) with 10. change (Z.of_nat 4300) with 4300.
    by rewrite <- HB. }
  destruct Hp as (p & -> & Hp).
  pose proof (pretty_N_go_length_pow 4300 (N.pos p) "" Hp) as Hlen.
  change (pretty (Z.pos p)) with (pretty_N_go (N.pos p) "").
  simpl String.length in Hlen. clear Hp Hn. lia.
Qed.

(** * Properties of the snapshot store *)



(** ** Writing a value and reading it back *)

Lemma py_int_of_str n : int_str_ok n = true -> py_int (str_of_int n) = Ok n.
Proof.
  intros Hok. unfold py_int. rewrite to_ascii_str_of_int.
  by apply int_of_ascii_str_of_int.
Qed.

(** The text of a positive number is a digit from 1 to 9 followed by
    digits. *)
Lemma pretty_N_go_literal x : forall s,
  (0 < x)%N -> all_digits s = true ->
  exists m rest,
    (0 < m < 10)%N /\ pretty_N_go x s = String (pretty_N_char m) rest /\
    all_digits rest = true.
Proof.
  induction (N.lt_wf_0 x) as [x _ IH]; intros s Hx Hs.
  rewrite pretty_N_go_step by done.
  assert (Hm : (x `mod` 10 < 10)%N) by (apply N.mod_lt; lia).
  destruct (pretty_N_char_digit _ Hm) as (Hdig & _ & _).
  destruct (decide (x `div` 10 = 0)%N) as [Hd|Hd].
  - rewrite Hd, pretty_N_go_0. exists (x `mod` 10)%N, s.
    split; [|done]. split; [|done].
    pose proof (N.div_mod x 10 ltac:(lia)) as Hdm. rewrite Hd in Hdm. lia.
  - apply IH; [apply N.div_lt; lia | by apply N.neq_0_lt_0 |].
    cbn [all_digits]. by rewrite Hdig, Hs.
Qed.

Lemma json_int_literal_digits m rest :
  (0 < m < 10)%N -> all_digits rest = true ->
  json_int_literal (String (pretty_N_char m) rest) = true /\
  json_int_literal (String "-" (String (pretty_N_char m) rest)) = true.
Proof.
  intros Hm Hrest.
  assert (m = 1 \/ m = 2 \/ m = 3 \/ m = 4 \/ m = 5 \/ m = 6 \/
          m = 7 \/ m = 8 \/ m = 9)%N as Hcases by lia.
  destruct Hcases as [->|[->|[->|[->|[->|[->|[->|[->| ->]]]]]]]];
    split; cbn; by rewrite Hrest.
Qed.

(** [str] writes a literal of JSON. *)
Lemma json_int_literal_str_of_int n : json_int_literal (str_of_int n) = true.
Proof.
  unfold str_of_int. destruct n as [|p|p]; [reflexivity| |].
  - change (pretty (Z.pos p)) with (pretty_N_go (N.pos p) "").
    destruct (pretty_N_go_literal (N.pos p) "" ltac:(lia) eq_refl)
      as (m & rest & Hm & -> & Hrest).
    by apply json_int_literal_digits.
  - change (pretty (Z.neg p)) with (String "-" (pretty_N_go (N.pos p) "")).
    destruct (pretty_N_go_literal (N.pos p) "" ltac:(lia) eq_refl)
      as (m & rest & Hm & -> & Hrest).
    by apply json_int_literal_digits.
Qed.

Lemma json_decode_int n literal :
  format_int n = Ok literal -> json_decode (JInt literal) = Ok (PInt n).
Proof.
  unfold format_int. destruct (int_str_ok n) eqn:Hok; [|done].
  intros [= <-]. cbn [json_decode].
  by rewrite json_int_literal_str_of_int, (py_int_of_str n Hok).
Qed.

Lemma res_map_cons {A B : Type} (f : A -> res B) x l :
  res_map f (x :: l) = (y ← f x; ys ← res_map f l; Ok (y :: ys)).
Proof. reflexivity. Qed.

Lemma json_dump_list items :
  json_dump (PList items) =
  (items' ← res_map json_dump items; Ok (JArray items')).
Proof. reflexivity. Qed.

Lemma json_dump_dict items :
  json_dump (PDict items) =
  (members ← res_map (fun kv => j ← json_dump kv.2; Ok (kv.1, j)) items;
   Ok (JObject members)).
Proof. reflexivity. Qed.

Lemma json_decode_array items :
  json_decode (JArray items) =
  (items' ← res_map json_decode items; Ok (PList items')).
Proof. reflexivity. Qed.

Lemma json_decode_object members :
  json_decode (JObject members) =
  (pairs ← res_map (fun m => v ← json_decode m.2; Ok (m.1, v)) members;
   Ok (PDict (foldl (fun d kv => dict_set kv.1 kv.2 d) [] pairs))).
Proof. reflexivity. Qed.

(** Induction on a value, through its lists and dictionaries. *)
Lemma pyval_nested_ind (P : pyval -> Prop) :
  P PNone -> (forall b, P (PBool b)) -> (forall n, P (PInt n)) ->
  (forall x, P (PFloat x)) -> (forall s, P (PStr s)) ->
  (forall items, Forall P items -> P (PList items)) ->
  (forall items, Forall (fun kv => P kv.2) items -> P (PDict items)) ->
  forall v, P v.
Proof.
  intros HN HB HI HF HS HL HD. fix IH 1.
  intros [|b|n|x|s|items|items];
    [exact HN | exact (HB b) | exact (HI n) | exact (HF x) | exact (HS s)
    | | ].
  - apply HL. induction items as [|v items IHl]; constructor;
      [apply IH | apply IHl].
  - apply HD. induction items as [|[k v] items IHl]; constructor;
      [apply IH | apply IHl].
Qed.

Lemma res_map_round_trip {A B : Type} (f : A -> res B) (g : B -> res A)
    (l : list A) :
  Forall (fun x => forall y, f x = Ok y -> g y = Ok x) l ->
  forall ys, res_map f l = Ok ys -> res_map g ys = Ok l.
Proof.
  induction 1 as [|x l Hx _ IH]; intros ys H.
  - by injection H as <-.
  - rewrite res_map_cons in H.
    destruct (f x) as [y|e] eqn:Hy; [|done].
    destruct (res_map f l) as [ys'|e] eqn:Hys; [|done].
    injection H as <-. rewrite res_map_cons, (Hx y eq_refl).
    by rewrite (IH ys' eq_refl).
Qed.

Lemma dict_set_fresh k v (items : list (string * pyval)) :
  k ∉ map fst items -> dict_set k v items = (items ++ [(k, v)])%list.
Proof.
  induction items as [|[k' v'] items IH]; intros Hk; [done|].
  cbn [dict_set]. destruct (String.eqb_spec k' k) as [->|Hne].
  - exfalso. apply Hk. by left.
  - cbn [app]. rewrite IH; [done|]. intros Hin. apply Hk. by right.
Qed.

(** Filling a dictionary with items of different keys gives these items. *)
Lemma dict_of_items (items : list (string * pyval)) : forall acc,
  NoDup (map fst (acc ++ items)) ->
  foldl (fun d kv => dict_set kv.1 kv.2 d) acc items = (acc ++ items)%list.
Proof.
  induction items as [|[k v] items IH]; intros acc Hnd.
  - by rewrite app_nil_r.
  - cbn [foldl fst snd]. rewrite dict_set_fresh.
    + rewrite IH; rewrite <- app_assoc; done.
    + rewrite map_app in Hnd. apply NoDup_app in Hnd as (_ & Hdisj & _).
      intros Hin. apply (Hdisj k Hin). by left.
Qed.

(** Reading what [json.dump] has written gives the value back. *)
Lemma json_round_trip v :
  unique_keys v = true ->
  forall j, json_dump v = Ok j -> json_decode j = Ok v.
Proof.
  induction v as [|b|n|x|s|items IH|items IH] using pyval_nested_ind;
    intros Hu j Hj.
  - by injection Hj as <-.
  - by injection Hj as <-.
  - cbn [json_dump] in Hj. destruct (format_int n) as [literal|e] eqn:Hf;
      [|done].
    injection Hj as <-. by apply json_decode_int.
  - by injection Hj as <-.
  - by injection Hj as <-.
  - rewrite json_dump_list in Hj.
    destruct (res_map json_dump items) as [js|e] eqn:Hjs; [|done].
    injection Hj as <-. rewrite json_decode_array.
    rewrite (res_map_round_trip json_dump json_decode items); [done| |done].
    cbn [unique_keys] in Hu. rewrite forallb_forall in Hu.
    rewrite Forall_forall in IH.
    apply Forall_forall. intros v Hv j Hj.
    apply IH; [done | | done]. apply Hu. by apply list_elem_of_In.
  - rewrite json_dump_dict in Hj.
    destruct (res_map _ items) as [ms|e] eqn:Hms; [|done].
    injection Hj as <-. rewrite json_decode_object.
    cbn [unique_keys] in Hu. apply andb_prop in Hu as [Hkeys Hu].
    apply bool_decide_eq_true in Hkeys. rewrite forallb_forall in Hu.
    rewrite Forall_forall in IH.
    assert (Hitems :
      Forall (fun kv : string * pyval =>
                forall m : string * json,
                  (j ← json_dump kv.2; Ok (kv.1, j)) = Ok m ->
                  (v ← json_decode m.2; Ok (m.1, v)) = Ok kv) items).
    { apply Forall_forall. intros [k v] Hv [k' j] Hj. cbn [fst snd] in *.
      destruct (json_dump v) as [j'|e] eqn:Hd; [|done].
      injection Hj as <- <-. cbn [fst snd].
      assert (Huv : unique_keys v = true)
        by (apply (Hu (k, v)); by apply list_elem_of_In).
      by rewrite (IH (k, v) Hv Huv j' Hd). }
    rewrite (res_map_round_trip _ _ items Hitems ms Hms).
    cbn [mbind res_bind]. by rewrite (dict_of_items items []).
Qed.

Lemma unique_keys_record t : unique_keys (record_dict t) = true.
Proof. destruct t. by vm_compute. Qed.

Lemma unique_keys_document now data :
  unique_keys (snapshot_document now data) = true.
Proof.
  assert (Hrecs : forallb unique_keys (map record_dict data) = true).
  { induction data as [|t data IH]; [done|].
    cbn [map forallb]. by rewrite unique_keys_record, IH. }
  unfold snapshot_document, standings_list.
  cbn [unique_keys forallb snd map fst]. rewrite Hrecs. by vm_compute.
Qed.

(** A value that [json.dump] writes has integers that can be written
    only. *)
Lemma json_dump_dumpable v : forall j, json_dump v = Ok j -> dumpable v = true.
Proof.
  induction v as [|b|n|x|s|items IH|items IH] using pyval_nested_ind;
    intros j Hj; try done.
  - cbn [json_dump] in Hj. cbn [dumpable]. unfold format_int in Hj.
    by destruct (int_str_ok n).
  - rewrite json_dump_list in Hj. cbn [dumpable].
    destruct (res_map json_dump items) as [js|e] eqn:Hjs; [|done]. clear Hj.
    revert js Hjs. induction IH as [|v items Hv _ IHl]; intros js Hjs; [done|].
    rewrite res_map_cons in Hjs.
    destruct (json_dump v) as [j'|e] eqn:Hd; [|done].
    destruct (res_map json_dump items) as [js'|e] eqn:Hjs'; [|done].
    cbn [forallb]. by rewrite (Hv j' eq_refl), (IHl js' eq_refl).
  - rewrite json_dump_dict in Hj. cbn [dumpable].
    destruct (res_map _ items) as [ms|e] eqn:Hms; [|done]. clear Hj.
    revert ms Hms.
    induction IH as [|[k v] items Hv _ IHl]; intros ms Hms; [done|].
    rewrite res_map_cons in Hms. cbn [fst snd] in *.
    destruct (json_dump v) as [j'|e] eqn:Hd; [|done].
    destruct (res_map _ items) as [ms'|e] eqn:Hms'; [|done].
    cbn [forallb snd]. by rewrite (Hv j' eq_refl), (IHl ms' eq_refl).
Qed.

(** When [save_to_json] returns [True]: the path can be opened and the
    document can be written; the file then holds its text. *)
Lemma save_to_json_true now data filename (fs fs' : gmap string Node) :
  save_to_json now data filename fs = (true, fs') <->
  fs !! filename <> Some Denied /\
  exists document,
    json_dump (snapshot_document now data) = Ok document /\
    fs' = <[filename := File (JsonDoc document)]> fs.
Proof.
  unfold save_to_json.
  destruct (fs !! filename) as [[|c]|];
    destruct (json_dump (snapshot_document now data)) as [document|e]; split;
    first [ intros [= <-]; split; [done | eauto]
          | intros [=]
          | intros (Hd & document' & [= <-] & ->); done
          | intros (Hd & document' & [=] & _)
          | intros (Hd & _); done ].
Qed.

(** When it returns [False] on a path that it could open: an integer of the
    document cannot be written, and the file is left with the beginning of
    a text. *)
Lemma save_to_json_not_dumpable now data filename (fs : gmap string Node) :
  fs !! filename <> Some Denied ->
  dumpable (snapshot_document now data) = false ->
  save_to_json now data filename fs = (false, <[filename := File NotJson]> fs).
Proof.
  intros Hd Hdump. unfold save_to_json.
  destruct (json_dump (snapshot_document now data)) as [document|e] eqn:Hj.
  - apply json_dump_dumpable in Hj. congruence.
  - by destruct (fs !! filename) as [[|c]|].
Qed.

(** Loading the text of a saved document. *)
Lemma load_saved_document filename (fs : gmap string Node) now data document :
  json_dump (snapshot_document now data) = Ok document ->
  fs !! filename = Some (File (JsonDoc document)) ->
  load_existing_standings filename fs = (Ok (standings_list data), []).
Proof.
  intros Hd H. unfold load_existing_standings. rewrite H. cbn [json_load].
  by rewrite (json_round_trip _ (unique_keys_document now data) _ Hd).
Qed.

(** Loading after a successful save, as a helper for the runs. *)
Lemma save_then_load_helper now data filename (fs fs' : gmap string Node) :
  save_to_json now data filename fs = (true, fs') ->
  load_existing_standings filename fs' = (Ok (standings_list data), []).
Proof.
  intros Hsave.
  apply save_to_json_true in Hsave as (_ & document & Hd & ->).
  apply (load_saved_document _ _ now data document Hd).
  by rewrite lookup_insert_eq.
Qed.

(** An integer of more than 4300 digits among the records makes the whole
    document impossible to write. *)
Lemma dumpable_huge now data t :
  t ∈ data ->
  int_str_ok (position t) = false \/ int_str_ok (games_remaining t) = false ->
  dumpable (snapshot_document now data) = false.
Proof.
  intros Hin Hbig. unfold snapshot_document, standings_list.
  cbn [dumpable forallb snd]. rewrite !andb_true_l, andb_true_r.
  apply andb_false_iff. right.
  induction data as [|a data IH]; [by apply elem_of_nil in Hin|].
  cbn [map forallb]. apply andb_false_iff.
  apply elem_of_cons in Hin as [<-|Hin]; [left | right; by apply IH].
  unfold record_dict. cbn [dumpable forallb snd].
  destruct Hbig as [-> | ->]; [done|]. by rewrite !andb_false_r.
Qed.

(** C9, the claim as it stands, at a page whose only row has minus
    [10 ^ 4300 - 1] games played (a text of 4300 digits, which [int]
    reads): the parser makes a record with [10 ^ 4300 + 51] games
    remaining, an integer of 4301 digits that [json.dump] cannot write; the
    save returns [False], leaves the beginning of a text, and the load that
    follows returns [None]. *)
Lemma save_fails_on_parsed_snapshot :
  (parse_standings page_long_season).1 = Parsed [record_long_season] /\
  save_to_json clock_march [record_long_season] "standings.json" ∅
    = (false, <["standings.json" := File NotJson]> ∅) /\
  load_existing_standings "standings.json"
    (save_to_json clock_march [record_long_season] "standings.json" ∅).2
    = (Ok PNone, [CouldNotRead JSONDecodeError]).
Proof.
  assert (Hsave :
    save_to_json clock_march [record_long_season] "standings.json" ∅
      = (false, <["standings.json" := File NotJson]> ∅)).
  { apply save_to_json_not_dumpable; [by rewrite lookup_empty|].
    apply (dumpable_huge _ _ record_long_season); [by left|]. right.
    apply int_str_ok_large.
    change (games_remaining record_long_season) with (10 ^ 4300 + 51).
    remember (10 ^ 4300) as B eqn:HB.
    assert (0 < B) by (subst B; by apply Z.pow_pos_nonneg).
    clear HB. lia. }
  split; [vm_compute; reflexivity|]. split; [exact Hsave|].
  rewrite Hsave. reflexivity.
Qed.



(** C3 (the code at the failing input): the file holds a JSON document that
    is not an object; [data.get] raises [AttributeError], which the handler
    does not catch, so the load raises instead of returning [None]; the same
    happens with [UnicodeDecodeError] for a file that is not UTF-8. *)
Theorem load_raises_on_unexpected_content :
  load_existing_standings "standings.json" store_with_array
    = (Raise AttributeError, []) /\
  load_existing_standings "standings.json" store_with_bad_bytes
    = (Raise UnicodeDecodeError, []).
Proof. split; vm_compute; reflexivity. Qed.

(** * Further properties of the parser *)

(** The loop with its warnings: when no row aborts, every row either gives a
    record or one warning. *)
Lemma parse_rows_accounting rows : forall p acc w,
  first_abort p rows = None ->
  exists recs' w',
    parse_rows p rows acc w = (Ok (acc ++ recs'), w ++ w')%list /\
    (length recs' + length w' = length rows)%nat /\
    Forall (fun x => match x with
                     | SkippedShortRow n => (n < 11)%nat
                     | SkippedBadRow e => e = ValueError
                     end) w'.
Proof.
  induction rows as [|cells rest IH]; intros p acc w Hna; simpl in *.
  { exists [], []. by rewrite !app_nil_r. }
  destruct (row_step p cells) as [t|wn|e] eqn:Hstep; [| |discriminate].
  - destruct (IH (p + 1) (acc ++ [t])%list w Hna) as (r' & w' & -> & Hlen & Hw).
    exists (t :: r'), w'. rewrite <- app_assoc. simpl.
    split; [done|]. split; [lia | done].
  - destruct (IH (p + 1) acc (w ++ [wn])%list Hna) as (r' & w' & -> & Hlen & Hw).
    exists r', (wn :: w'). rewrite <- app_assoc. simpl.
    split; [done|]. split; [lia|]. constructor; [|done].
    unfold row_step in Hstep.
    destruct (Nat.ltb_spec (length cells) 11) as [Hlt|Hge].
    + by injection Hstep as <-.
    + destruct (parse_row p cells) as [t'|e] eqn:Hrow; [discriminate|].
      destruct (parse_row_raises _ _ _ Hge Hrow) as [-> | ->];
        [by injection Hstep as <- | discriminate].
Qed.

(** X1: on a page that parses, every data row of the first table is
    accounted for: the number of records plus the number of warnings is the
    number of data rows, and a row is only ever left out for having fewer
    than eleven cells or for a cell that is not an integer. *)
Theorem parse_accounts_for_every_row
    (page : list (list (list string))) recs w :
  parse_standings page = (Parsed recs, w) ->
  exists header rows others,
    page = (header :: rows) :: others /\
    (length recs + length w = length rows)%nat /\
    Forall (fun x => match x with
                     | SkippedShortRow n => (n < 11)%nat
                     | SkippedBadRow e => e = ValueError
                     end) w.
Proof.
  intros H. pose proof (parse_standings_Parsed _ _ _ H)
    as (header & rows & others & -> & Hna & -> & Hne).
  exists header, rows, others. split; [done|].
  destruct (parse_rows_accounting rows 1 [] [] Hna)
    as (r' & w' & Hrows & Hlen & Hw).
  unfold parse_standings in H.
  destruct rows as [|row rows']; [done|].
  change (length (header :: row :: rows') <? 2)%nat with false in H.
  change (tail (header :: row :: rows')) with (row :: rows') in H.
  pose proof (parse_rows_fst (row :: rows') 1 [] []) as Hfst.
  rewrite Hna, Hrows in Hfst.
  remember (extracted 1 (row :: rows')) as ext eqn:Hext.
  injection Hfst as Hr'. subst r'. rewrite Hrows in H.
  rewrite length_map in Hlen |- *.
  destruct ext as [|x l]; [done|].
  simpl in H. injection H as <-. done.
Qed.

Lemma parse_accounts_for_every_row_witness :
  parse_standings page_third_row_short
    = (Parsed records_third_row_short, [SkippedShortRow 9]) /\
  exists header rows others,
    page_third_row_short = (header :: rows) :: others /\
    (length records_third_row_short + length [SkippedShortRow 9]
     = length rows)%nat /\
    Forall (fun x => match x with
                     | SkippedShortRow n => (n < 11)%nat
                     | SkippedBadRow e => e = ValueError
                     end) [SkippedShortRow 9].
Proof.
  assert (H : parse_standings page_third_row_short
              = (Parsed records_third_row_short, [SkippedShortRow 9]))
    by (vm_compute; reflexivity).
  split; [exact H | exact (parse_accounts_for_every_row _ _ _ H)].
Defined.

(** X2: the columns of a row go to the fields in a fixed order: the record
    made of a row has the text of cell 0 as team, the integers of cells 1 to
    10 as games_played, wins, ties, losses, ot_wins, ot_losses, goals_for,
    goals_against, goal_diff and points, the position it was given, and
    [52 - games_played] as games_remaining. *)
Theorem parse_row_columns p (cells : list string) t :
  parse_row p cells = Ok t ->
  position t = p /\
  cells !! 0%nat = Some (team t) /\
  int_cell cells 1 = Ok (games_played t) /\
  int_cell cells 2 = Ok (wins t) /\
  int_cell cells 3 = Ok (ties t) /\
  int_cell cells 4 = Ok (losses t) /\
  int_cell cells 5 = Ok (ot_wins t) /\
  int_cell cells 6 = Ok (ot_losses t) /\
  int_cell cells 7 = Ok (goals_for t) /\
  int_cell cells 8 = Ok (goals_against t) /\
  int_cell cells 9 = Ok (goal_diff t) /\
  int_cell cells 10 = Ok (points t) /\
  games_remaining t = TOTAL_GAMES_IN_SEASON - games_played t.
Proof.
  unfold parse_row. intros H.
  do 14 step_bind H. injection H as <-. simpl.
  repeat split; try done.
  unfold cell_at in Hx. destruct (cells !! 0%nat); congruence.
Qed.

Lemma parse_row_columns_witness :
  parse_row 3 ["C"; "9"; "2"; "0"; "7"; "0"; "0"; "12"; "27"; "-15"; "6"]
    = Ok record_C /\
  int_cell ["C"; "9"; "2"; "0"; "7"; "0"; "0"; "12"; "27"; "-15"; "6"] 9
    = Ok (goal_diff record_C) /\
  games_remaining record_C = TOTAL_GAMES_IN_SEASON - games_played record_C.
Proof.
  assert (H : parse_row 3
                ["C"; "9"; "2"; "0"; "7"; "0"; "0"; "12"; "27"; "-15"; "6"]
              = Ok record_C) by (vm_compute; reflexivity).
  split; [exact H|].
  pose proof (parse_row_columns _ _ _ H) as Hcols.
  split; [apply Hcols | apply Hcols].
Defined.

Lemma cell_at_app (cells extra : list string) i :
  (i < length cells)%nat -> cell_at (cells ++ extra) i = cell_at cells i.
Proof. intros Hi. unfold cell_at. by rewrite lookup_app_l. Qed.

(** X3: only the first eleven cells of a row are read: cells after the
    eleventh change neither the record nor the decision to keep, skip or
    abort. *)
Theorem row_step_ignores_extra_cells p (cells extra : list string) :
  (11 <= length cells)%nat ->
  parse_row p (cells ++ extra) = parse_row p cells /\
  row_step p (cells ++ extra) = row_step p cells.
Proof.
  intros Hlen.
  assert (Hrow : parse_row p (cells ++ extra) = parse_row p cells).
  { unfold parse_row, int_cell. by rewrite !cell_at_app by lia. }
  split; [done|]. unfold row_step. rewrite Hrow, length_app.
  destruct (Nat.ltb_spec (length cells) 11) as [|_]; [lia|].
  destruct (Nat.ltb_spec (length cells + length extra) 11) as [|_]; [lia|].
  done.
Qed.

Lemma row_step_ignores_extra_cells_witness :
  row_step 1 (sample_row "A" ++ ["note"; "x"]) = Keep record_A.
Proof.
  rewrite (proj2 (row_step_ignores_extra_cells 1 (sample_row "A")
                    ["note"; "x"] ltac:(simpl; lia))).
  vm_compute. reflexivity.
Defined.

(** X4: a row whose games_played is zero or negative is kept without any
    division: when its eleven cells are there and the ten counters are
    integers, the row gives a record whose three ratios are [0.0]. *)
Theorem parse_row_no_games p (cells : list string) gp :
  (11 <= length cells)%nat ->
  (forall i, (1 <= i <= 10)%nat -> exists z, int_cell cells i = Ok z) ->
  int_cell cells 1 = Ok gp ->
  gp <= 0 ->
  exists t,
    row_step p cells = Keep t /\
    games_played t = gp /\
    win_percentage t = float_zero /\
    points_per_game t = float_zero /\
    goals_per_game t = float_zero.
Proof.
  intros Hlen Hints Hgp Hle.
  destruct (cell_at_Ok cells 0 ltac:(lia)) as [name Hname].
  destruct (Hints 2%nat ltac:(lia)) as [w Hw].
  destruct (Hints 3%nat ltac:(lia)) as [ti Hti].
  destruct (Hints 4%nat ltac:(lia)) as [l Hl].
  destruct (Hints 5%nat ltac:(lia)) as [otw Hotw].
  destruct (Hints 6%nat ltac:(lia)) as [otl Hotl].
  destruct (Hints 7%nat ltac:(lia)) as [gf Hgf].
  destruct (Hints 8%nat ltac:(lia)) as [ga Hga].
  destruct (Hints 9%nat ltac:(lia)) as [gd Hgd].
  destruct (Hints 10%nat ltac:(lia)) as [pts Hpts].
  unfold row_step, parse_row.
  destruct (Nat.ltb_spec (length cells) 11) as [|_]; [lia|].
  rewrite Hname, Hgp, Hw, Hti, Hl, Hotw, Hotl, Hgf, Hga, Hgd, Hpts. simpl.
  destruct (Z.ltb_spec 0 gp) as [|_]; [lia|]. simpl.
  eexists. split; [reflexivity|]. simpl. done.
Qed.

Lemma parse_row_no_games_witness :
  exists t,
    row_step 1 ["N"; "0"; "0"; "0"; "0"; "0"; "0"; "0"; "0"; "0"; "0"] = Keep t /\
    games_played t = 0 /\
    win_percentage t = float_zero /\
    points_per_game t = float_zero /\
    goals_per_game t = float_zero.
Proof.
  apply (parse_row_no_games 1
           ["N"; "0"; "0"; "0"; "0"; "0"; "0"; "0"; "0"; "0"; "0"] 0).
  - simpl. lia.
  - intros i Hi.
    assert (i = 1 \/ i = 2 \/ i = 3 \/ i = 4 \/ i = 5 \/ i = 6 \/ i = 7 \/
            i = 8 \/ i = 9 \/ i = 10)%nat as Hcases by lia.
    exists 0.
    destruct Hcases as [->|[->|[->|[->|[->|[->|[->|[->|[->| ->]]]]]]]]];
      reflexivity.
  - reflexivity.
  - lia.
Defined.

(** Only the rows after the first row of the first table count: the header
    row and every other table of the page have no influence on the result. *)
Remark parse_reads_first_table_only
    (header header' : list string) (rows : list (list string))
    (others others' : list (list (list string))) :
  parse_standings ((header :: rows) :: others) =
  parse_standings ((header' :: rows) :: others').
Proof. reflexivity. Qed.

(** * Further properties of the comparator *)

Lemma stat_changes_of_cases keys o n :
  stat_changes_of keys o n = Ok (flat_map (counter_text o n) keys) \/
  stat_changes_of keys o n = Raise ValueError.
Proof.
  induction keys as [|[key get] rest IH]; [by left|].
  cbn [stat_changes_of flat_map]. unfold counter_text at 1. cbn [fst snd].
  destruct (bool_decide (get o ≠ get n)); [|done].
  destruct (format_int_cases (get o)) as [-> | ->]; [|by right].
  destruct (format_int_cases (get n)) as [-> | ->]; [|by right].
  destruct IH as [-> | ->]; [by left | by right].
Qed.


(** A turn of the loop gives the messages on the team, unless a number
    cannot be formatted. *)
Lemma team_changes_cases o n :
  team_changes o n = Ok (team_texts o n) \/
  team_changes o n = Raise ValueError.
Proof.
  unfold team_changes, team_texts, stat_changes, stat_texts.
  destruct (bool_decide (position o ≠ position n)).
  - destruct (format_int_cases (position o)) as [-> | ->]; [|by right].
    destruct (format_int_cases (position n)) as [-> | ->]; [|by right].
    destruct (stat_changes_of_cases raw_counters o n) as [-> | ->];
      [|by right].
    left. cbn [mbind res_bind].
    by destruct (flat_map (counter_text o n) raw_counters).
  - destruct (stat_changes_of_cases raw_counters o n) as [-> | ->];
      [|by right].
    left. cbn [mbind res_bind].
    by destruct (flat_map (counter_text o n) raw_counters).
Qed.


Lemma compare_teams_cases old_by_team new : forall changes,
  (forall n, n ∈ new -> is_Some (old_by_team !! team n)) ->
  compare_teams old_by_team new changes =
    Ok (changes ++ flat_map (team_report old_by_team) new)%list \/
  compare_teams old_by_team new changes = Raise ValueError.
Proof.
  induction new as [|n rest IH]; intros changes Hall; simpl.
  { left. by rewrite app_nil_r. }
  unfold team_report at 1.
  destruct (Hall n) as [o Ho]; [by left|]. rewrite Ho.
  destruct (team_changes_cases o n) as [-> | ->]; [|by right].
  cbn [mbind res_bind].
  destruct (IH (changes ++ team_texts o n)%list) as [-> | ->];
    [intros n' Hn'; apply Hall; by right | | by right].
  left. by rewrite <- app_assoc.
Qed.


Lemma names_equal_lookup old new n :
  team_names old = team_names new -> n ∈ new ->
  is_Some (by_team old !! team n).
Proof.
  intros Hnames Hn. apply elem_of_dom. rewrite by_team_dom, Hnames.
  unfold team_names. apply elem_of_list_to_set, list_elem_of_fmap. eauto.
Qed.

(** The last phase as a whole: the messages on the teams of [new], or
    [ValueError]; never [KeyError]. *)
Lemma compare_third_phase set_order (old new : list TeamRecord) :
  length old = length new ->
  team_names old = team_names new ->
  compare_standings set_order old new =
    Ok (bool_decide (0 < length (flat_map (team_report (by_team old)) new))%nat,
        flat_map (team_report (by_team old)) new) \/
  compare_standings set_order old new = Raise ValueError.
Proof.
  intros Hlen Hnames. unfold compare_standings.
  rewrite bool_decide_eq_false_2 by (intros Hne; by apply Hne).
  rewrite !by_team_dom.
  rewrite bool_decide_eq_false_2 by (intros Hne; by apply Hne).
  destruct (compare_teams_cases (by_team old) new []) as [-> | ->];
    [intros n Hn; by eapply names_equal_lookup | by left | by right].
Qed.



(** The ways in which the comparison ends. *)
Lemma compare_standings_cases set_order (old new : list TeamRecord) :
  (length old <> length new /\
   compare_standings set_order old new =
     Ok (true,
         ["Team count changed: " +:+ str_of_int (Z.of_nat (length old))
            +:+ " → " +:+ str_of_int (Z.of_nat (length new))])) \/
  (length old = length new /\ team_names old <> team_names new /\
   compare_standings set_order old new =
     Ok (true,
         membership_messages
           (team_names new ∖ team_names old)
           (team_names old ∖ team_names new)
           (set_order (map team new) (map team old)
              (team_names new ∖ team_names old))
           (set_order (map team old) (map team new)
              (team_names old ∖ team_names new)))) \/
  (length old = length new /\ team_names old = team_names new /\
   compare_standings set_order old new =
     Ok (bool_decide
           (0 < length (flat_map (team_report (by_team old)) new))%nat,
         flat_map (team_report (by_team old)) new)) \/
  (length old = length new /\ team_names old = team_names new /\
   compare_standings set_order old new = Raise ValueError).
Proof.
  destruct (decide (length old = length new)) as [Hlen|Hlen].
  - destruct (decide (team_names old = team_names new)) as [Hn|Hn].
    + destruct (compare_third_phase set_order old new Hlen Hn) as [H|H].
      * right. right. left. auto.
      * right. right. right. auto.
    + right. left. auto using compare_membership_eq.
  - left. split; [done|]. unfold compare_standings.
    by rewrite bool_decide_eq_true_2.
Qed.



Lemma app_nil_inv {A : Type} (l k : list A) : (l ++ k)%list = [] -> l = [] /\ k = [].
Proof. destruct l; simpl; [done | discriminate]. Qed.

Lemma stat_texts_nil_inv o n : stat_texts o n = [] -> same_counters o n.
Proof.
  unfold stat_texts, same_counters, counter_text. simpl. intros H.
  repeat match type of H with
    | ((if bool_decide (?a ≠ ?b) then _ else _) ++ _)%list = [] =>
        let Hf := fresh "Hf" in
        apply app_nil_inv in H as [Hf H];
        destruct (decide (a = b));
        [| rewrite bool_decide_eq_true_2 in Hf by done; discriminate Hf]
    end.
  tauto.
Qed.


Lemma team_texts_nil_inv o n :
  team_texts o n = [] -> same_position_and_counters o n.
Proof.
  unfold team_texts. intros H. apply app_nil_inv in H as [Hpos Hstat].
  assert (Hc : same_counters o n).
  { apply stat_texts_nil_inv. by destruct (stat_texts o n). }
  split.
  - destruct (decide (position o = position n)); [done|].
    rewrite bool_decide_eq_true_2 in Hpos by done. discriminate.
  - exact Hc.
Qed.

Lemma flat_map_nil_inv {A B : Type} (f : A -> list B) (l : list A) :
  flat_map f l = [] -> forall x, x ∈ l -> f x = [].
Proof.
  induction l as [|a l IH]; simpl; intros H x Hx.
  - by apply elem_of_nil in Hx.
  - apply app_nil_inv in H as [Ha Hl].
    apply elem_of_cons in Hx as [->|Hx]; auto.
Qed.

(** What the verdict "no change" implies. *)
Lemma compare_no_report_inv set_order
    (old new : list TeamRecord) msgs :
  unique_teams old ->
  compare_standings set_order old new = Ok (false, msgs) ->
  msgs = [] /\
  length old = length new /\
  team_names old = team_names new /\
  forall o n, o ∈ old -> n ∈ new -> team o = team n ->
              same_position_and_counters o n.
Proof.
  intros Huniq Hcmp.
  destruct (compare_standings_cases set_order old new)
    as [(_ & H) | [(_ & _ & H) | [(Hlen & Hnames & H) | (_ & _ & H)]]];
    rewrite H in Hcmp; try discriminate.
  injection Hcmp as Hb <-.
  apply bool_decide_eq_false in Hb.
  assert (Hnil : flat_map (team_report (by_team old)) new = []).
  { destruct (flat_map _ _); [done | simpl in Hb; lia]. }
  split; [done|]. do 2 (split; [done|]).
  intros o n Ho Hn Hteam.
  pose proof (flat_map_nil_inv _ _ Hnil n Hn) as Hrep.
  unfold team_report in Hrep.
  destruct (names_equal_lookup old new n Hnames Hn) as [o' Ho'].
  rewrite Ho' in Hrep.
  apply by_team_lookup_Some in Ho' as [Hin' Hteam'].
  assert (o = o') as -> by (eapply unique_teams_inj; eauto; congruence).
  by apply team_texts_nil_inv.
Qed.

(** X6: the comparison misses no change: when the old sequence has no two
    records of one team and no change is reported, the two sequences have
    the same length and the same team names, and every team has the same
    position and the same ten counters on both sides. *)
Theorem compare_no_report_means_no_change set_order
    (old new : list TeamRecord) msgs :
  unique_teams old ->
  compare_standings set_order old new = Ok (false, msgs) ->
  msgs = [] /\
  length old = length new /\
  team_names old = team_names new /\
  forall o n, o ∈ old -> n ∈ new -> team o = team n ->
              same_position_and_counters o n.
Proof. apply compare_no_report_inv. Qed.

Lemma compare_no_report_means_no_change_witness :
  unique_teams [record_A_stale; record_B] /\
  compare_standings elements_order [record_A_stale; record_B]
    [record_A; record_B]
    = Ok (false, []) /\
  same_position_and_counters record_A_stale record_A.
Proof.
  assert (Hu : unique_teams [record_A_stale; record_B]).
  { unfold unique_teams. apply (bool_decide_unpack _). vm_compute. exact I. }
  assert (Hc : compare_standings elements_order [record_A_stale; record_B]
                 [record_A; record_B] = Ok (false, []))
    by (vm_compute; reflexivity).
  split; [exact Hu|]. split; [exact Hc|].
  destruct (compare_no_report_means_no_change elements_order _ _ _ Hu Hc)
    as (_ & _ & _ & Hall).
  apply Hall; [by left | by left | reflexivity].
Defined.

Lemma same_position_and_counters_sym o n :
  same_position_and_counters o n -> same_position_and_counters n o.
Proof. unfold same_position_and_counters. intuition congruence. Qed.

(** X7: between two sequences without duplicate team names the verdict "no
    change" does not depend on the direction of the comparison. *)
Theorem compare_no_change_symmetric set_order (a b : list TeamRecord) :
  unique_teams a -> unique_teams b ->
  (compare_standings set_order a b = Ok (false, []) <->
   compare_standings set_order b a = Ok (false, [])).
Proof.
  assert (Hdir : forall x y : list TeamRecord,
            unique_teams x ->
            compare_standings set_order x y = Ok (false, []) ->
            compare_standings set_order y x = Ok (false, [])).
  { intros x y Hx Hcmp.
    destruct (compare_no_report_inv set_order x y [] Hx Hcmp)
      as (_ & Hlen & Hnames & Hall).
    apply compare_no_changes; [done..|].
    intros o n Ho Hn Hteam. apply same_position_and_counters_sym.
    by apply Hall. }
  intros Ha Hb. split; auto.
Qed.

Lemma compare_no_change_symmetric_witness :
  unique_teams [record_A_stale; record_B] /\
  unique_teams [record_A; record_B] /\
  compare_standings elements_order [record_A; record_B]
    [record_A_stale; record_B]
    = Ok (false, []).
Proof.
  assert (Ha : unique_teams [record_A_stale; record_B]).
  { unfold unique_teams. apply (bool_decide_unpack _). vm_compute. exact I. }
  assert (Hb : unique_teams [record_A; record_B]).
  { unfold unique_teams. apply (bool_decide_unpack _). vm_compute. exact I. }
  split; [exact Ha|]. split; [exact Hb|].
  apply (compare_no_change_symmetric elements_order _ _ Ha Hb).
  vm_compute. reflexivity.
Defined.







(** * Further properties of the snapshot store *)

(** X9: a save touches one path only: every other path of the store is as
    before, whether the save succeeds or not, and a path that cannot be
    opened leaves the whole store as it was. *)
Theorem save_to_json_frame now data filename (fs : gmap string Node) other :
  other <> filename ->
  (save_to_json now data filename fs).2 !! other = fs !! other /\
  (fs !! filename = Some Denied ->
   save_to_json now data filename fs = (false, fs)).
Proof.
  intros Hne. unfold save_to_json.
  destruct (fs !! filename) as [[|c]|];
    destruct (json_dump (snapshot_document now data)); simpl;
    rewrite ?lookup_insert_ne by done; split; try done; intros [=].
Qed.

Lemma save_to_json_frame_witness :
  (save_to_json clock_march [record_A] "standings.json" store_with_bad_bytes).2
    !! "other.json"
  = store_with_bad_bytes !! "other.json".
Proof.
  refine (proj1 (save_to_json_frame clock_march [record_A] "standings.json"
                   store_with_bad_bytes "other.json" _)).
  discriminate.
Defined.

(** X10: a save replaces the file wholesale: after two successful saves to
    one path the store is what the second save alone would have made of the
    original store, and loading returns the records of the second save. *)
Theorem save_to_json_overwrites now1 now2 data1 data2 filename
    (fs fs1 fs2 : gmap string Node) :
  save_to_json now1 data1 filename fs = (true, fs1) ->
  save_to_json now2 data2 filename fs1 = (true, fs2) ->
  fs2 = (save_to_json now2 data2 filename fs).2 /\
  load_existing_standings filename fs2 = (Ok (standings_list data2), []).
Proof.
  intros H1 H2. split; [|by apply (save_then_load_helper _ _ _ _ _ H2)].
  apply save_to_json_true in H1 as (Hd & document1 & _ & ->).
  apply save_to_json_true in H2 as (_ & document & Hdump & ->).
  rewrite insert_insert_eq. unfold save_to_json. rewrite Hdump.
  destruct (fs !! filename) as [[|c]|]; done.
Qed.

Lemma save_to_json_overwrites_witness :
  load_existing_standings "standings.json"
    (save_to_json clock_september [record_B] "standings.json"
       (save_to_json clock_march [record_A] "standings.json" ∅).2).2
  = (Ok (standings_list [record_B]), []).
Proof.
  refine (proj2 (save_to_json_overwrites clock_march clock_september
                   [record_A] [record_B] "standings.json" ∅ _ _ _ _)).
  - vm_compute. reflexivity.
  - vm_compute. reflexivity.
Defined.

(** X11: a save that fails on a path it could open has already emptied the
    file: whatever snapshot the path held before is lost, and the next load
    returns [None] with the warning of a file that is not JSON. *)
Theorem failed_save_loses_snapshot now data filename
    (fs fs' : gmap string Node) :
  fs !! filename <> Some Denied ->
  save_to_json now data filename fs = (false, fs') ->
  load_existing_standings filename fs'
    = (Ok PNone, [CouldNotRead JSONDecodeError]).
Proof.
  intros Hd. unfold save_to_json.
  destruct (fs !! filename) as [[|c]|]; try done;
    destruct (json_dump (snapshot_document now data)); intros [= <-];
    unfold load_existing_standings; by rewrite lookup_insert_eq.
Qed.

Lemma failed_save_loses_snapshot_witness :
  load_existing_standings "standings.json"
    (save_to_json clock_march [record_huge] "standings.json"
       store_with_bad_bytes).2
    = (Ok PNone, [CouldNotRead JSONDecodeError]).
Proof.
  apply (failed_save_loses_snapshot clock_march [record_huge] "standings.json"
           store_with_bad_bytes).
  - vm_compute. discriminate.
  - rewrite (save_to_json_not_dumpable clock_march [record_huge]).
    + reflexivity.
    + vm_compute. discriminate.
    + apply (dumpable_huge _ _ record_huge); [by left|]. left.
      apply int_str_ok_large.
      change (position record_huge) with (10 ^ 4300).
      rewrite Z.abs_eq by (apply Z.pow_nonneg; lia). apply Z.le_refl.
Defined.


(** X13: the season label does not change during a season: every month from
    September on of one year gives the label of every month before
    September of the next year. *)
Theorem season_label_spans_new_year (autumn spring : Clock) :
  9 <= month autumn ->
  month spring < 9 ->
  year spring = year autumn + 1 ->
  get_current_season autumn = get_current_season spring.
Proof.
  intros Ha Hs Hy. unfold get_current_season.
  destruct (Z.leb_spec 9 (month autumn)) as [_|]; [|lia].
  destruct (Z.leb_spec 9 (month spring)) as [|_]; [lia|].
  rewrite Hy. by replace (year autumn + 1 - 1) with (year autumn) by lia.
Qed.

Lemma season_label_spans_new_year_witness :
  get_current_season clock_september = "2025-2026" /\
  get_current_season clock_september = get_current_season clock_august_after.
Proof.
  split; [vm_compute; reflexivity|].
  apply season_label_spans_new_year; simpl; lia.
Defined.

(** * Properties of the run *)

Lemma as_record_dict t : as_record (record_dict t) = Some t.
Proof. by destruct t. Qed.

Lemma as_records_standings_list recs :
  as_records (standings_list recs) = Some recs.
Proof.
  unfold as_records, standings_list.
  induction recs as [|t recs IH]; [done|].
  cbn [map mapM]. rewrite as_record_dict. cbn [mbind option_bind].
  rewrite IH. done.
Qed.



(** X14: a run that cannot fetch the page, or cannot parse it, ends with
    status 1 and leaves everything as it was: no file is written and no
    [git] command is run. *)
Theorem main_failure_keeps_store soup set_order (w : World) existing lw :
  load_existing_standings OUTPUT_FILE (files w) = (Ok existing, lw) ->
  (fetch_page (network w) URL).1 = None \/
  (exists html err,
     (fetch_page (network w) URL).1 = Some html /\
     (parse_html soup html).1 = Failed err) ->
  main soup set_order w =
    Some {| exit := Exited 1; files_after := files w; commands := [] |}.
Proof.
  intros Hload Hfail. unfold main. rewrite Hload.
  destruct (fetch_page (network w) URL) as [[html|] lf]; simpl in Hfail.
  - destruct Hfail as [[=] | (html' & err & [= <-] & Hparse)].
    destruct (parse_html soup html) as [[recs|err'] lp]; simpl in Hparse;
      [discriminate | done].
  - done.
Qed.

Lemma main_failure_keeps_store_witness :
  main sample_soup elements_order world_offline =
    Some {| exit := Exited 1; files_after := ∅; commands := [] |}.
Proof.
  apply (main_failure_keeps_store sample_soup elements_order world_offline PNone []).
  - reflexivity.
  - left. reflexivity.
Defined.

(** X15: on a first run (nothing usable is stored: no file, a file that
    cannot be read or is not JSON, or no standings in it) the parsed
    standings are saved and no [git] command is run; the status is 0 when
    the save succeeded, and then loading returns the saved standings. *)
Theorem main_first_run soup set_order (w : World) lw html recs :
  load_existing_standings OUTPUT_FILE (files w) = (Ok PNone, lw) ->
  (fetch_page (network w) URL).1 = Some html ->
  (parse_html soup html).1 = Parsed recs ->
  exists success fs,
    save_to_json (clock w) recs OUTPUT_FILE (files w) = (success, fs) /\
    main soup set_order w =
      Some {| exit := Exited (if success then 0 else 1);
              files_after := fs; commands := [] |} /\
    (success = true ->
     load_existing_standings OUTPUT_FILE fs = (Ok (standings_list recs), [])).
Proof.
  intros Hload Hfetch Hparse. unfold main. rewrite Hload.
  destruct (fetch_page (network w) URL) as [o lf]; simpl in Hfetch; subst o.
  destruct (parse_html soup html) as [r lp]; simpl in Hparse; subst r.
  destruct (save_to_json (clock w) recs OUTPUT_FILE (files w))
    as [success fs] eqn:Hsave.
  exists success, fs. split; [done|]. split; [by destruct success|].
  intros ->. by apply (save_then_load_helper _ _ _ _ _ Hsave).
Qed.

Lemma main_first_run_witness :
  exists success fs,
    save_to_json clock_march [record_A; record_B] OUTPUT_FILE ∅
      = (success, fs) /\
    main sample_soup elements_order world_first_run =
      Some {| exit := Exited (if success then 0 else 1);
              files_after := fs; commands := [] |} /\
    (success = true ->
     load_existing_standings OUTPUT_FILE fs
       = (Ok (standings_list [record_A; record_B]), [])).
Proof.
  apply (main_first_run sample_soup elements_order world_first_run []
           "<table>A B</table>" [record_A; record_B]).
  - reflexivity.
  - reflexivity.
  - vm_compute. reflexivity.
Defined.


(** A successful save leaves the text of its document. *)
Lemma save_holds_snapshot now data filename (fs fs' : gmap string Node) :
  save_to_json now data filename fs = (true, fs') ->
  holds_snapshot fs' filename now data.
Proof.
  intros Hsave. apply save_to_json_true in Hsave as (_ & document & Hd & ->).
  exists document. split; [done|]. by rewrite lookup_insert_eq.
Qed.

(** X17: a second run on the same page changes nothing: when the file holds
    the document of an earlier save of the standings that the page parses
    to, and no two of these records share a team name, the run ends with
    status 0, writes no file and runs no [git] command. *)
Theorem main_second_run_is_noop soup set_order (w : World) now0 html recs :
  holds_snapshot (files w) OUTPUT_FILE now0 recs ->
  (fetch_page (network w) URL).1 = Some html ->
  (parse_html soup html).1 = Parsed recs ->
  unique_teams recs ->
  main soup set_order w =
    Some {| exit := Exited 0; files_after := files w; commands := [] |}.
Proof.
  intros (document & Hdump & Hfile) Hfetch Hparse Hu. unfold main.
  rewrite (load_saved_document _ _ _ _ _ Hdump Hfile).
  change (standings_list recs) with (PList (map record_dict recs)) at 1.
  cbv iota. change (PList (map record_dict recs)) with (standings_list recs).
  destruct (fetch_page (network w) URL) as [o lf]; simpl in Hfetch; subst o.
  destruct (parse_html soup html) as [r lp]; simpl in Hparse; subst r.
  rewrite as_records_standings_list.
  rewrite compare_no_changes; [done..|].
  intros o n Ho Hn Heq. rewrite (unique_teams_inj recs o n Hu Ho Hn Heq).
  apply same_position_and_counters_refl.
Qed.

Lemma main_second_run_is_noop_witness :
  unique_teams [record_A; record_B] /\
  main sample_soup elements_order world_second_run =
    Some {| exit := Exited 0; files_after := files world_second_run;
            commands := [] |}.
Proof.
  assert (Hu : unique_teams [record_A; record_B]).
  { unfold unique_teams. apply (bool_decide_unpack _). vm_compute. exact I. }
  split; [exact Hu|].
  apply (main_second_run_is_noop sample_soup elements_order world_second_run
           clock_march "<table>A B</table>" [record_A; record_B]).
  - apply (save_holds_snapshot _ _ _ ∅). vm_compute. reflexivity.
  - reflexivity.
  - vm_compute. reflexivity.
  - exact Hu.
Defined.



(** * Properties of publishing *)









(** The three commands of a publication, for a list of changes. *)
Lemma git_commands_prefix (g : list string -> CmdResult) changes :
  (git_commit_and_push g changes).2 `prefix_of`
    [["git"; "add"; OUTPUT_FILE];
     ["git"; "commit"; "-m"; commit_message changes];
     ["git"; "push"]] /\
  head (git_commit_and_push g changes).2 = Some ["git"; "add"; OUTPUT_FILE] /\
  ((git_commit_and_push g changes).1 = true <->
   g ["git"; "add"; OUTPUT_FILE] = CmdOk /\
   g ["git"; "commit"; "-m"; commit_message changes] = CmdOk /\
   g ["git"; "push"] = CmdOk).
Proof.
  unfold git_commit_and_push.
  destruct (g ["git"; "add"; OUTPUT_FILE]);
    [destruct (g ["git"; "commit"; "-m"; commit_message changes]);
     [destruct (g ["git"; "push"])|..]|..]; simpl;
    (split; [|split; [done|split; [intros [=] | intros (? & ? & ?)];
                              try done; try discriminate]]);
    first [done | by eexists [_; _] | by eexists [_] | by eexists [] | idtac].
Qed.

(** X20: when the stored standings differ from the parsed ones, the new
    standings are saved first; only after a successful save are the [git]
    commands run, starting with [git add] and never going beyond add,
    commit (with the commit message of the changes) and push, and the
    status is 0 whatever they do; a failed save ends the run with status 1
    and without any [git] command. *)
Theorem main_saves_before_publishing soup set_order (w : World)
    now0 old html recs changes success fs :
  holds_snapshot (files w) OUTPUT_FILE now0 old ->
  (fetch_page (network w) URL).1 = Some html ->
  (parse_html soup html).1 = Parsed recs ->
  compare_standings set_order old recs = Ok (true, changes) ->
  save_to_json (clock w) recs OUTPUT_FILE (files w) = (success, fs) ->
  exists cmds,
    main soup set_order w =
      Some {| exit := Exited (if success then 0 else 1);
              files_after := fs; commands := cmds |} /\
    (success = false -> cmds = []) /\
    (success = true ->
     head cmds = Some ["git"; "add"; OUTPUT_FILE] /\
     cmds `prefix_of`
       [["git"; "add"; OUTPUT_FILE];
        ["git"; "commit"; "-m"; commit_message changes];
        ["git"; "push"]] /\
     load_existing_standings OUTPUT_FILE fs = (Ok (standings_list recs), [])).
Proof.
  intros (document & Hdump & Hfile) Hfetch Hparse Hcmp Hsave. unfold main.
  rewrite (load_saved_document _ _ _ _ _ Hdump Hfile).
  destruct (fetch_page (network w) URL) as [o lf]; simpl in Hfetch; subst o.
  destruct (parse_html soup html) as [r lp]; simpl in Hparse; subst r.
  change (standings_list old) with (PList (map record_dict old)) at 1.
  cbv iota. change (PList (map record_dict old)) with (standings_list old).
  rewrite as_records_standings_list, Hcmp, Hsave.
  destruct success.
  - eexists. split; [reflexivity|]. split; [discriminate|]. intros _.
    destruct (git_commands_prefix (git w) changes) as (Hpre & Hhead & _).
    split; [done|]. split; [done|].
    by apply (save_then_load_helper _ _ _ _ _ Hsave).
  - eexists. split; [reflexivity|]. split; [done | discriminate].
Qed.

Lemma main_saves_before_publishing_witness :
  exists cmds,
    main sample_soup elements_order world_places_changed =
      Some {| exit := Exited 0;
              files_after :=
                (save_to_json clock_september [record_A; record_B] OUTPUT_FILE
                   (files world_places_changed)).2;
              commands := cmds |} /\
    cmds = [["git"; "add"; "standings.json"];
            ["git"; "commit"; "-m"; "2 pos changes"];
            ["git"; "push"]].
Proof.
  destruct (main_saves_before_publishing sample_soup elements_order
              world_places_changed clock_march [record_B_up; record_A_down]
              "<table>A B</table>" [record_A; record_B]
              ["A: pos 2 → 1"; "B: pos 1 → 2"] true
              (save_to_json clock_september [record_A; record_B] OUTPUT_FILE
                 (files world_places_changed)).2)
    as (cmds & Hmain & _ & _).
  - apply (save_holds_snapshot _ _ _ ∅). vm_compute. reflexivity.
  - reflexivity.
  - vm_compute. reflexivity.
  - vm_compute. reflexivity.
  - vm_compute. reflexivity.
  - exists cmds. split; [exact Hmain|].
    assert (Hrun : main sample_soup elements_order world_places_changed =
              Some {| exit := Exited 0;
                      files_after :=
                        (save_to_json clock_september [record_A; record_B]
                           OUTPUT_FILE (files world_places_changed)).2;
                      commands :=
                        [["git"; "add"; "standings.json"];
                         ["git"; "commit"; "-m"; "2 pos changes"];
                         ["git"; "push"]] |})
      by (vm_compute; reflexivity).
    rewrite Hrun in Hmain. by injection Hmain as <-.
Defined.

(** * Integers and their texts, read back *)

(** X21: reading back the text of an integer gives the integer:
    [int(str(n)) = n] for every integer that [str] can write, that is of at
    most 4300 digits. *)
Theorem py_int_str_of_int n :
  int_str_ok n = true -> py_int (str_of_int n) = Ok n.
Proof.
  intros Hok. unfold py_int. rewrite to_ascii_str_of_int.
  by apply int_of_ascii_str_of_int.
Qed.

Lemma py_int_str_of_int_witness :
  int_str_ok (-15) = true /\
  str_of_int (-15) = "-15" /\
  py_int (str_of_int (-15)) = Ok (-15).
Proof.
  assert (H : int_str_ok (-15) = true) by (vm_compute; reflexivity).
  split; [exact H|]. split; [vm_compute; reflexivity|].
  exact (py_int_str_of_int (-15) H).
Defined.
